(** * Minigotchi beacon frames: Frame::pack, Frame::send, Frame::advertise

    A shallow embedding of [frame.cpp].  The static members of the class
    [Frame] become a record that is threaded through the calls; the
    vector [beaconFrame] is a list of bytes whose element stores are
    bounds-checked (a store past the end is undefined behaviour in the
    source and [None] here); the radio, the clock, the serial port and the
    display are an event trace fed by oracles. *)

From Stdlib Require Import ZArith List Lia Bool String Strings.Byte.
From Stdlib Require Import Floats.SpecFloat.
From stdpp Require Import base option list.

Local Open Scope Z_scope.

(** ** Machine integers *)

(** Conversion to [uint8_t]. *)
Definition uint8_t (x : Z) : Z := x mod 2 ^ 8.

(** Conversion to [size_t] (32 bits on the ESP32). *)
Definition size_t (x : Z) : Z := x mod 2 ^ 32.

(** The value of a [char] of the serialized document; [char] is unsigned
    on the target, and [isAscii] answers the same for a signed one. *)
Definition char_val (c : byte) : Z := Z.of_N (Byte.to_N c).

(** Arduino's [isAscii(int c)]: no bit above the low seven is set. *)
Definition isAscii (c : Z) : bool := Z.land c (Z.lnot 0x7f) =? 0.

(** ** The vector [beaconFrame] *)

(** [v[idx] = x]: defined only inside the vector. *)
Definition vec_store (v : list Z) (idx x : Z) : option (list Z) :=
  if bool_decide (0 <= idx < Z.of_nat (length v))
  then Some (<[Z.to_nat idx := x]> v)
  else None.

(** [v.resize(n)]: keeps the first [n] elements, value-initialises new ones. *)
Definition vec_resize (v : list Z) (n : Z) : list Z := resize (Z.to_nat n) 0 v.

(** [memcpy(v.data(), src, sizeof src)]: defined when [src] fits. *)
Definition memcpy (v src : list Z) : option (list Z) :=
  if bool_decide (length src <= length v)%nat
  then Some (src ++ drop (length src) v)
  else None.

(** ** Static members of [Frame] *)

Module Frame.

Definition chunkSize : Z := 0xFF.

Definition IDWhisperPayload : Z := 0xDE.
Definition IDWhisperCompression : Z := 0xDF.
Definition IDWhisperIdentity : Z := 0xE0.
Definition IDWhisperSignature : Z := 0xE1.
Definition IDWhisperStreamHeader : Z := 0xE2.

Definition header : list Z :=
  [ 0x80; 0x00;                               (* frame control, beacon frame *)
    0x00; 0x00;                               (* duration *)
    0xff; 0xff; 0xff; 0xff; 0xff; 0xff;       (* broadcast address *)
    0xde; 0xad; 0xbe; 0xef; 0xde; 0xad;       (* source address *)
    0xa1; 0x00; 0x64; 0xe6; 0x0b; 0x8b;       (* bssid *)
    0x40; 0x43;                               (* fragment and sequence number *)
    0x00; 0x00; 0x00; 0x00; 0x00; 0x00; 0x00; 0x00; (* timestamp *)
    0x64; 0x00;                               (* interval *)
    0x11; 0x04 ].                             (* capability info *)

(** [sizeof(Frame::header)]. *)
Definition pwngridHeaderLength : Z := Z.of_nat (length header).

Record statics := mkStatics {
  payloadSize : Z;
  beaconFrame : list Z;
  essidLength : Z;
  headerLength : Z
}.

(** The initialisers at the top of [frame.cpp]. *)
Definition init : statics :=
  {| payloadSize := 255; beaconFrame := []; essidLength := 0; headerLength := 0 |}.

Definition set_payloadSize (p : Z) (s : statics) : statics :=
  {| payloadSize := p; beaconFrame := beaconFrame s;
     essidLength := essidLength s; headerLength := headerLength s |}.

Definition set_beaconFrame (b : list Z) (s : statics) : statics :=
  {| payloadSize := payloadSize s; beaconFrame := b;
     essidLength := essidLength s; headerLength := headerLength s |}.

(** ** Frame::pack *)

(** [jsonString[i]]: an Arduino [String] reads as 0 past its end. *)
Definition char_at (jsonString : list byte) (i : nat) : byte :=
  default "000"%byte (jsonString !! i).

(** The byte stored for one character of the document. *)
Definition nextByte (c : byte) : Z :=
  if isAscii (char_val c) then uint8_t (char_val c) else 0x3F (* '?' *).

(** The [if (i == 0 || i % 255 == 0)] block of the loop body.  The
    [size_t] difference [essidLength - i] cannot wrap: the loop keeps
    [i < essidLength]. *)
Definition pack_boundary (i : nat) (cs : Z * statics) : option (Z * statics) :=
  let '(currentByte, s) := cs in
  if (Z.of_nat i =? 0) || (Z.of_nat i mod 255 =? 0) then
    b ← vec_store (beaconFrame s) currentByte IDWhisperPayload;
    let s := set_beaconFrame b s in
    let s := if essidLength s - Z.of_nat i <? chunkSize
             then set_payloadSize (essidLength s - Z.of_nat i) s
             else s in
    b ← vec_store (beaconFrame s) (currentByte + 1) (uint8_t (payloadSize s));
    Some (currentByte + 2, set_beaconFrame b s)
  else Some cs.

(** One iteration of [for (int i = 0; i < essidLength; i++)]. *)
Definition pack_body (jsonString : list byte) (i : nat) (cs : Z * statics)
  : option (Z * statics) :=
  '(currentByte, s) ← pack_boundary i cs;
  b ← vec_store (beaconFrame s) currentByte (nextByte (char_at jsonString i));
  Some (currentByte + 1, set_beaconFrame b s).

(** [for (int i = from; i < from + n; i++) body]. *)
Fixpoint for_loop {A} (body : nat -> A -> option A) (from n : nat) (a : A)
  : option A :=
  match n with
  | O => Some a
  | S n' => a' ← body from a; for_loop body (S from) n' a'
  end.

(** [Frame::pack] on the serialized document [jsonString], whose length is
    what [measureJson] returns; the result also carries the final value of
    the local [currentByte]. *)
Definition pack_run (s : statics) (jsonString : list byte) : option (Z * statics) :=
  let essidLength := Z.of_nat (length jsonString) in
  let headerLength := uint8_t (uint8_t (essidLength / 255) * 2) in
  let b := vec_resize (beaconFrame s)
             (size_t (pwngridHeaderLength + essidLength + headerLength + chunkSize)) in
  b ← memcpy b header;
  let s := {| payloadSize := payloadSize s; beaconFrame := b;
              essidLength := essidLength; headerLength := headerLength |} in
  for_loop (pack_body jsonString) 0 (length jsonString) (pwngridHeaderLength, s).

Definition pack (s : statics) (jsonString : list byte) : option statics :=
  snd <$> pack_run s jsonString.

End Frame.

(** ** The bytes the loop appends *)

Module Layout.
Import Frame.

(** What iteration [i] stores, in order, and the [payloadSize] it leaves,
    for a document of [L] bytes and [payloadSize = p] before it. *)
Definition emit (L : Z) (i : nat) (p : Z) (c : byte) : list Z * Z :=
  if Z.of_nat i mod 255 =? 0 then
    let p' := if L - Z.of_nat i <? chunkSize then L - Z.of_nat i else p in
    ([IDWhisperPayload; uint8_t p'; nextByte c], p')
  else ([nextByte c], p).

(** The stores of iterations [i], ..., [i + n - 1], concatenated. *)
Fixpoint stream (L : Z) (jsonString : list byte) (i n : nat) (p : Z) : list Z * Z :=
  match n with
  | O => ([], p)
  | S n' =>
      let '(o, p') := emit L i p (char_at jsonString i) in
      let '(os, pf) := stream L jsonString (S i) n' p' in
      (o ++ os, pf)
  end.

(** The part of [beaconFrame] between the header and the write cursor. *)
Definition region (cs : Z * statics) : list Z :=
  take (Z.to_nat (fst cs - pwngridHeaderLength))
       (drop (Z.to_nat pwngridHeaderLength) (beaconFrame (snd cs))).

End Layout.

(** ** Reading chunks back from a region *)

Module Chunks.
Import Frame.

Record chunk := mkChunk { marker : Z; len_byte : Z; data : list Z }.

(** Wire encoding of a chunk: marker byte, length byte, data bytes. *)
Definition encode (c : chunk) : list Z := marker c :: len_byte c :: data c.

(** The chunks of a region as the loop lays them out: a marker, a length
    byte, and the bytes of one [chunkSize]-byte slice of the document. *)
Fixpoint read_slices (fuel : nat) (r : list Z) : option (list chunk) :=
  match r with
  | [] => Some []
  | m :: l :: rest =>
      match fuel with
      | O => None
      | S fuel' =>
          cs ← read_slices fuel' (drop (Z.to_nat chunkSize) rest);
          Some (mkChunk m l (take (Z.to_nat chunkSize) rest) :: cs)
      end
  | _ => None
  end.

Definition slices (r : list Z) : option (list chunk) := read_slices (length r) r.

(** The chunks of a region as a receiver reads them: each length byte says
    how many data bytes follow before the next marker. *)
Fixpoint read_tlv (fuel : nat) (r : list Z) : option (list chunk) :=
  match r with
  | [] => Some []
  | m :: l :: rest =>
      match fuel with
      | O => None
      | S fuel' =>
          if bool_decide (0 <= l <= Z.of_nat (length rest)) then
            cs ← read_tlv fuel' (drop (Z.to_nat l) rest);
            Some (mkChunk m l (take (Z.to_nat l) rest) :: cs)
          else None
      end
  | _ => None
  end.

Definition tlv (r : list Z) : option (list chunk) := read_tlv (length r) r.

(** The chunks a receiver finds in a whole buffer, without knowing where
    [pack] stopped writing: after the header it reads a marker, a length
    byte and that many data bytes, again and again, and stops at the first
    byte that is not the payload marker, or when fewer bytes are left
    than the length byte announces. *)
Fixpoint read_payload (fuel : nat) (bytes : list Z) : list chunk :=
  match bytes with
  | m :: l :: rest =>
      if (m =? IDWhisperPayload) && bool_decide (0 <= l <= Z.of_nat (length rest)) then
        match fuel with
        | O => []
        | S fuel' =>
            mkChunk m l (take (Z.to_nat l) rest)
              :: read_payload fuel' (drop (Z.to_nat l) rest)
        end
      else []
  | _ => []
  end.

Definition payload_chunks (buffer : list Z) : list chunk :=
  read_payload (length buffer) (drop (Z.to_nat pwngridHeaderLength) buffer).

Definition sumZ (l : list Z) : Z := foldr Z.add 0 l.

(** Number of [chunkSize]-byte slices of a document of [L] bytes. *)
Definition slice_count (L : Z) : Z := (L + (chunkSize - 1)) / chunkSize.

(** The [k]-th chunk the loop lays out for [jsonString] when it is entered
    with [payloadSize = p]. *)
Definition nth_chunk (p : Z) (jsonString : list byte) (k : nat) : chunk :=
  let L := Z.of_nat (length jsonString) in
  let i := (Z.to_nat chunkSize * k)%nat in
  {| marker := IDWhisperPayload;
     len_byte := uint8_t (if L - Z.of_nat i <? chunkSize then L - Z.of_nat i else p);
     data := nextByte <$> take (Z.to_nat chunkSize) (drop i jsonString) |}.

Definition laid_out (p : Z) (jsonString : list byte) : list chunk :=
  nth_chunk p jsonString
    <$> seq 0 (Z.to_nat (slice_count (Z.of_nat (length jsonString)))).

(** Every chunk but the last carries [chunkSize] data bytes, the last at
    most that many. *)
Fixpoint well_sliced (cs : list chunk) : Prop :=
  match cs with
  | [] => True
  | [c] => (length (data c) <= Z.to_nat chunkSize)%nat
  | c :: cs' => length (data c) = Z.to_nat chunkSize /\ well_sliced cs'
  end.

End Chunks.

(** ** binary32 arithmetic, the [float] of the target *)

Module Float32.

Definition prec : Z := 24.
Definition emax : Z := 128.

(** Conversion of an integer to [float]. *)
Definition of_Z (n : Z) : spec_float := binary_normalize prec emax n 0 false.

Definition div : spec_float -> spec_float -> spec_float := SFdiv prec emax.
Definition mul : spec_float -> spec_float -> spec_float := SFmul prec emax.

Definition isinf (f : spec_float) : bool :=
  match f with S754_infinity _ => true | _ => false end.

Definition isnan (f : spec_float) : bool :=
  match f with S754_nan => true | _ => false end.

Definition is_finite (f : spec_float) : bool := negb (isinf f) && negb (isnan f).

End Float32.

(** ** Frame::send and Frame::advertise *)

Module Radio.
Import Frame.

(** An argument of [Serial.print] or a part of a [String] concatenation. *)
Inductive piece :=
| Str (s : string)
| Flt (f : spec_float).

Inductive event :=
| EvDelay (ms : Z)
| EvTx (buffer : list Z) (len : Z)    (* esp_wifi_80211_tx(WIFI_IF_STA, buffer, len, false) *)
| EvSerialPrint (p : piece)
| EvSerialPrintln (p : piece)
| EvDisplay (face : string) (text : list piece).

(** What the collaborators answer: the configuration flag, the document
    serialized at the n-th build, the verdict of the n-th transmission and
    the reading of the n-th [millis()]. *)
Record env := mkEnv {
  Config_advertise : bool;
  serialized : nat -> list byte;
  tx_ok : nat -> bool;
  millis_at : nat -> Z
}.

Record world := mkWorld {
  frame : statics;
  trace : list event;
  n_pack : nat;
  n_tx : nat;
  n_millis : nat
}.

Definition boot : world :=
  {| frame := init; trace := []; n_pack := 0; n_tx := 0; n_millis := 0 |}.

Definition emit_event (ev : event) (w : world) : world :=
  {| frame := frame w; trace := trace w ++ [ev];
     n_pack := n_pack w; n_tx := n_tx w; n_millis := n_millis w |}.

(** [millis()], an [unsigned long]. *)
Definition millis (e : env) (w : world) : Z * world :=
  (millis_at e (n_millis w) mod 2 ^ 32,
   {| frame := frame w; trace := trace w;
      n_pack := n_pack w; n_tx := n_tx w; n_millis := S (n_millis w) |}).

Definition delay (ms : Z) (w : world) : world := emit_event (EvDelay ms) w.

Definition esp_wifi_80211_tx (e : env) (buffer : list Z) (len : Z) (w : world)
  : bool * world :=
  (tx_ok e (n_tx w),
   {| frame := frame w; trace := trace w ++ [EvTx buffer len];
      n_pack := n_pack w; n_tx := S (n_tx w); n_millis := n_millis w |}).

(** [Frame::pack()] as called from [send]: builds and serializes the
    document, then packs it. *)
Definition pack_call (e : env) (w : world) : option world :=
  s ← pack (frame w) (serialized e (n_pack w));
  Some {| frame := s; trace := trace w;
          n_pack := S (n_pack w); n_tx := n_tx w; n_millis := n_millis w |}.

Definition send (e : env) (w : world) : option (bool * world) :=
  w ← pack_call e w;
  let w := delay 102 w in
  Some (esp_wifi_80211_tx e (beaconFrame (frame w))
          (size_t (Z.of_nat (length (beaconFrame (frame w))))) w).

(** [packets / (float)(millis() - startTime) * 1000]. *)
Definition pps_of (packets now startTime : Z) : spec_float :=
  Float32.mul
    (Float32.div (Float32.of_Z packets) (Float32.of_Z ((now - startTime) mod 2 ^ 32)))
    (Float32.of_Z 1000).

(** The lines printed for one rate report. *)
Definition rate_report (pps : spec_float) (w : world) : world :=
  let w := emit_event (EvSerialPrint (Str "(>-<) Packets per second: ")) w in
  let w := emit_event (EvSerialPrint (Flt pps)) w in
  let w := emit_event (EvSerialPrintln (Str " pkt/s")) w in
  emit_event (EvDisplay "(>-<)" [Str "Packets per second: "; Flt pps; Str " pkt/s"]) w.

(** One iteration of [for (int i = 0; i < 150; ++i)]; the loop carries
    the local [packets]. *)
Definition advertise_body (e : env) (startTime : Z) (i : nat) (pw : Z * world)
  : option (Z * world) :=
  let '(packets, w) := pw in
  '(ok, w) ← send e w;
  if ok : bool then
    let packets := packets + 1 in
    let '(now, w) := millis e w in
    let pps := pps_of packets now startTime in
    if negb (Float32.isinf pps)
    then Some (packets, rate_report pps w)
    else Some (packets, w)
  else Some (packets, emit_event (EvSerialPrintln (Str "(X-X) Advertisment failed to send!")) w).

Definition advertise (e : env) (w : world) : option world :=
  let packets := 0 in
  let '(startTime, w) := millis e w in
  if Config_advertise e then
    let w := emit_event (EvSerialPrintln (Str "(>-<) Starting advertisment...")) w in
    let w := emit_event (EvSerialPrintln (Str " ")) w in
    let w := emit_event (EvDisplay "(>-<)" [Str "Starting advertisment..."]) w in
    let w := delay 250 w in
    '(_, w) ← for_loop (advertise_body e startTime) 0 150 (packets, w);
    let w := emit_event (EvSerialPrintln (Str " ")) w in
    let w := emit_event (EvSerialPrintln (Str "(^-^) Advertisment finished!")) w in
    let w := emit_event (EvSerialPrintln (Str " ")) w in
    Some (emit_event (EvDisplay "(^-^)" [Str "Advertisment finished!"]) w)
  else Some w.

(** The transmissions recorded in a trace. *)
Definition is_tx (ev : event) : bool :=
  match ev with EvTx _ _ => true | _ => false end.

(** The rates handed to [Serial.print] or to the display in a trace. *)
Definition reported (ev : event) : list spec_float :=
  match ev with
  | EvSerialPrint (Flt f) | EvSerialPrintln (Flt f) => [f]
  | EvDisplay _ text =>
      flat_map (fun p => match p with Flt f => [f] | Str _ => [] end) text
  | _ => []
  end.

End Radio.

(** ** Sample inputs *)

Module Samples.
Import Frame Radio.

(** The smallest JSON object. *)
Definition braces : list byte := ["{"; "}"]%byte.

(** A document of [n] ASCII letters. *)
Definition letters (n : nat) : list byte := replicate n "a"%byte.

(** Collaborators that always serialize [doc], always transmit
    successfully, and whose clock reads [clock n] at the n-th reading. *)
Definition collaborators (flag : bool) (doc : list byte) (clock : nat -> Z) : env :=
  {| Config_advertise := flag; serialized := fun _ => doc;
     tx_ok := fun _ => true; millis_at := clock |}.

(** The same with the document [braces] and a clock that advances by a
    second from one reading to the next. *)
Definition ticking : env := collaborators true braces (fun n => 1000 * Z.of_nat n).

End Samples.

(** ** Further vocabulary for the properties below *)

Module Observe.
Import Frame Radio.

(** The document as [pack] sees it: bytes of 128 and above read as ['?']. *)
Definition sanitize (c : byte) : byte :=
  if char_val c <? 128 then c else "?"%byte.

(** The pause requested by an event, if it is a [delay]. *)
Definition delay_of (ev : event) : list Z :=
  match ev with EvDelay ms => [ms] | _ => [] end.

(** The buffer handed to the radio by an event, if it is a transmission. *)
Definition tx_buffer (ev : event) : list (list Z) :=
  match ev with EvTx buffer _ => [buffer] | _ => [] end.

(** The line printed when a transmission fails. *)
Definition is_failure_line (ev : event) : bool :=
  match ev with
  | EvSerialPrintln (Str s) => String.eqb s "(X-X) Advertisment failed to send!"
  | _ => false
  end.

(** The verdicts of the [n] transmissions that follow the [from]-th. *)
Definition verdicts (e : env) (from n : nat) : list bool :=
  (fun j => tx_ok e (from + j)) <$> seq 0 n.

(** The documents serialized by the [n] builds that follow the [from]-th. *)
Definition documents (e : env) (from n : nat) : list (list byte) :=
  (fun j => serialized e (from + j)) <$> seq 0 n.

Definition count_if {A} (f : A -> bool) (l : list A) : nat :=
  length (List.filter f l).

(** Successive calls of [pack], one per document, each on the statics the
    previous one left; the statics after each call. *)
Fixpoint pack_sequence (s : statics) (docs : list (list byte)) : option (list statics) :=
  match docs with
  | [] => Some []
  | d :: ds =>
      s' ← pack s d;
      rest ← pack_sequence s' ds;
      Some (s' :: rest)
  end.

(** The event, if it is a pause or goes to the radio. *)
Definition radio_view (ev : event) : list event :=
  match ev with
  | EvDelay _ | EvTx _ _ => [ev]
  | _ => []
  end.

(** The event, if it goes to the serial port or to the display. *)
Definition console (ev : event) : list event :=
  match ev with
  | EvDelay _ | EvTx _ _ => []
  | _ => [ev]
  end.

(** The four events of one rate line, for the rate [pps]. *)
Definition rate_lines (pps : spec_float) : list event :=
  [ EvSerialPrint (Str "(>-<) Packets per second: ");
    EvSerialPrint (Flt pps);
    EvSerialPrintln (Str " pkt/s");
    EvDisplay "(>-<)" [Str "Packets per second: "; Flt pps; Str " pkt/s"] ].

(** What round [i] of an [advertise] entered in world [w] is to say.  If
    the radio refuses the transmission, the failure line.  Otherwise the
    successes so far, this one included, are counted, the clock is read
    (once at entry, once more per success), and unless no millisecond has
    elapsed the rate line is given with the successes over the elapsed
    seconds, in binary32. *)
Definition round_console (e : env) (w : world) (i : nat) : list event :=
  if tx_ok e (n_tx w + i) then
    let successes := count_if id (verdicts e (n_tx w) (S i)) in
    let startTime := millis_at e (n_millis w) mod 2 ^ 32 in
    let now := millis_at e (n_millis w + successes) mod 2 ^ 32 in
    let elapsed := (now - startTime) mod 2 ^ 32 in
    if elapsed =? 0 then []
    else rate_lines
           (Float32.mul
              (Float32.div (Float32.of_Z (Z.of_nat successes)) (Float32.of_Z elapsed))
              (Float32.of_Z 1000))
  else [EvSerialPrintln (Str "(X-X) Advertisment failed to send!")].

(** What an enabled [advertise] says before and after its rounds. *)
Definition start_lines : list event :=
  [ EvSerialPrintln (Str "(>-<) Starting advertisment...");
    EvSerialPrintln (Str " ");
    EvDisplay "(>-<)" [Str "Starting advertisment..."] ].

Definition finish_lines : list event :=
  [ EvSerialPrintln (Str " ");
    EvSerialPrintln (Str "(^-^) Advertisment finished!");
    EvSerialPrintln (Str " ");
    EvDisplay "(^-^)" [Str "Advertisment finished!"] ].

End Observe.

(** * Properties *)

Section VecStore.

Lemma vec_store_app (pre slack : list Z) (x y : Z) :
  vec_store (pre ++ x :: slack) (Z.of_nat (length pre)) y = Some (pre ++ y :: slack).
Proof.
  unfold vec_store. rewrite length_app, Nat2Z.id. cbn [length].
  rewrite bool_decide_true by lia.
  f_equal. rewrite insert_app_r_alt by lia. by rewrite Nat.sub_diag.
Qed.

Lemma vec_store_full (pre : list Z) (idx y : Z) :
  Z.of_nat (length pre) <= idx -> vec_store pre idx y = None.
Proof. intros H. unfold vec_store. by rewrite bool_decide_false by lia. Qed.

Lemma vec_store_Some_inv (v v' : list Z) (idx y : Z) :
  vec_store v idx y = Some v' ->
  0 <= idx < Z.of_nat (length v) /\ length v' = length v /\
  v' !! Z.to_nat idx = Some y /\
  forall j, j ≠ Z.to_nat idx -> v' !! j = v !! j.
Proof.
  unfold vec_store. case_bool_decide; [|done]. intros [= <-].
  split; [done|]. split; [by rewrite length_insert|].
  split; [apply list_lookup_insert_eq; lia|].
  intros j Hj. by apply list_lookup_insert_ne.
Qed.

End VecStore.

(** ** The loop of [pack] against the appended stream *)

Section LoopStream.
Import Frame Layout.

Variable jsonString : list byte.

Lemma emit_length L i p c :
  (1 <= length (emit L i p c).1 <= 3)%nat.
Proof. unfold emit. destruct (_ =? _); cbn; lia. Qed.

Lemma vec_store_1 (pre slack : list Z) (a x y : Z) :
  vec_store (pre ++ a :: x :: slack) (Z.of_nat (length pre) + 1) y
  = Some (pre ++ a :: y :: slack).
Proof.
  rewrite (cons_middle a pre), app_assoc.
  replace (Z.of_nat (length pre) + 1) with (Z.of_nat (length (pre ++ [a])))
    by (rewrite length_app; cbn; lia).
  rewrite vec_store_app. by rewrite <- app_assoc.
Qed.

Lemma vec_store_2 (pre slack : list Z) (a b x y : Z) :
  vec_store (pre ++ a :: b :: x :: slack) (Z.of_nat (length pre) + 2) y
  = Some (pre ++ a :: b :: y :: slack).
Proof.
  change (pre ++ a :: b :: x :: slack) with (pre ++ [a; b] ++ x :: slack).
  rewrite app_assoc.
  replace (Z.of_nat (length pre) + 2) with (Z.of_nat (length (pre ++ [a; b])))
    by (rewrite length_app; cbn; lia).
  rewrite vec_store_app. by rewrite <- app_assoc.
Qed.

(** With room for its stores, an iteration appends exactly [emit]. *)
Lemma pack_body_emit i s pre slack o p' :
  emit (essidLength s) i (payloadSize s) (char_at jsonString i) = (o, p') ->
  beaconFrame s = pre ++ slack ->
  (length o <= length slack)%nat ->
  pack_body jsonString i (Z.of_nat (length pre), s) =
    Some (Z.of_nat (length (pre ++ o)),
          {| payloadSize := p'; beaconFrame := pre ++ o ++ drop (length o) slack;
             essidLength := essidLength s; headerLength := headerLength s |}).
Proof.
  destruct s as [p b L hl]; cbn [essidLength payloadSize beaconFrame headerLength].
  intros He -> Hlen. unfold emit in He. unfold pack_body, pack_boundary.
  assert (Hz : (Z.of_nat i =? 0) || (Z.of_nat i mod 255 =? 0) = (Z.of_nat i mod 255 =? 0)).
  { by destruct (Z.eqb_spec (Z.of_nat i) 0) as [->|]. }
  rewrite Hz. destruct (Z.of_nat i mod 255 =? 0).
  - injection He as <- <-. cbn [length] in Hlen.
    destruct slack as [|x0 [|x1 [|x2 slack]]]; cbn [length] in Hlen; try lia.
    cbn [beaconFrame set_beaconFrame set_payloadSize essidLength payloadSize headerLength].
    rewrite vec_store_app.
    cbn [mbind option_bind app].
    set (p1 := if L - Z.of_nat i <? chunkSize then L - Z.of_nat i else p).
    assert (Hs : (if L - Z.of_nat i <? chunkSize
                  then set_payloadSize (L - Z.of_nat i)
                         (set_beaconFrame (pre ++ IDWhisperPayload :: x1 :: x2 :: slack)
                            (mkStatics p (pre ++ x0 :: x1 :: x2 :: slack) L hl))
                  else set_beaconFrame (pre ++ IDWhisperPayload :: x1 :: x2 :: slack)
                         (mkStatics p (pre ++ x0 :: x1 :: x2 :: slack) L hl))
                 = mkStatics p1 (pre ++ IDWhisperPayload :: x1 :: x2 :: slack) L hl).
    { unfold p1. by destruct (L - Z.of_nat i <? chunkSize). }
    cbn [beaconFrame set_beaconFrame set_payloadSize essidLength payloadSize headerLength] in Hs |- *.
    rewrite Hs. cbn [beaconFrame payloadSize].
    rewrite vec_store_1.
    cbn [mbind option_bind app set_beaconFrame beaconFrame payloadSize essidLength headerLength].
    rewrite vec_store_2.
    cbn [mbind option_bind app set_beaconFrame beaconFrame payloadSize essidLength headerLength].
    f_equal; f_equal. rewrite !length_app; cbn; lia.
  - injection He as <- <-. cbn [length] in Hlen.
    destruct slack as [|x0 slack]; cbn [length] in Hlen; try lia.
    cbn [mbind option_bind beaconFrame].
    rewrite vec_store_app.
    cbn [mbind option_bind app set_beaconFrame payloadSize essidLength headerLength].
    f_equal; f_equal. rewrite length_app; cbn; lia.
Qed.

(** With room for all its stores, the loop appends exactly [stream]. *)
Lemma for_loop_stream n : forall i s pre slack out pf,
  stream (essidLength s) jsonString i n (payloadSize s) = (out, pf) ->
  beaconFrame s = pre ++ slack ->
  (length out <= length slack)%nat ->
  for_loop (pack_body jsonString) i n (Z.of_nat (length pre), s) =
    Some (Z.of_nat (length (pre ++ out)),
          {| payloadSize := pf; beaconFrame := pre ++ out ++ drop (length out) slack;
             essidLength := essidLength s; headerLength := headerLength s |}).
Proof.
  induction n as [|n IH]; intros i s pre slack out pf Hst Hb Hlen; cbn [for_loop stream] in *.
  - injection Hst as <- <-. rewrite app_nil_r. cbn. rewrite drop_0.
    destruct s; cbn in *; by subst.
  - destruct (emit _ _ _ _) as [o p'] eqn:He.
    destruct (stream _ _ _ _ _) as [os pf'] eqn:Hs. injection Hst as <- <-.
    rewrite length_app in Hlen.
    rewrite (pack_body_emit _ _ pre slack o p' He Hb) by lia.
    cbn [mbind option_bind].
    erewrite (IH (S i) _ (pre ++ o) (drop (length o) slack) os pf').
    + cbn [essidLength headerLength]. f_equal. f_equal.
      * by rewrite <- app_assoc.
      * f_equal. rewrite <- !app_assoc. do 2 f_equal.
        by rewrite drop_drop, length_app.
    + done.
    + cbn. by rewrite <- app_assoc.
    + rewrite length_drop. lia.
Qed.

(** Without room for them, the loop runs into a store past the end. *)
Lemma for_loop_overflow n : forall i s cur,
  0 <= cur <= Z.of_nat (length (beaconFrame s)) ->
  (length (beaconFrame s) < Z.to_nat cur
     + length (stream (essidLength s) jsonString i n (payloadSize s)).1)%nat ->
  for_loop (pack_body jsonString) i n (cur, s) = None.
Proof.
  induction n as [|n IH]; intros i s cur Hcur Hlen; cbn [for_loop stream] in *.
  - cbn in Hlen. lia.
  - destruct (emit _ _ _ _) as [o p'] eqn:He.
    destruct (stream _ _ _ _ _) as [os pf'] eqn:Hs. cbn [fst] in Hlen.
    rewrite length_app in Hlen.
    destruct (decide (length o <= length (beaconFrame s) - Z.to_nat cur)%nat) as [Hfit|Hfit].
    + pose proof (take_drop (Z.to_nat cur) (beaconFrame s)) as Hsplit.
      assert (Hpre : length (take (Z.to_nat cur) (beaconFrame s)) = Z.to_nat cur)
        by (rewrite length_take; lia).
      pose proof (pack_body_emit i s _ _ o p' He (eq_sym Hsplit)) as Hb.
      rewrite Hpre, Z2Nat.id in Hb by lia. rewrite Hb by (rewrite length_drop; lia).
      cbn [mbind option_bind]. apply IH; cbn [beaconFrame essidLength payloadSize].
      * rewrite !length_app, Hpre, length_drop, length_drop. lia.
      * rewrite Hs. cbn [fst].
        rewrite !length_app, Hpre, length_drop, length_drop. lia.
    + clear IH. destruct s as [p b L hl]; cbn [beaconFrame essidLength payloadSize] in *.
      unfold emit in He. unfold pack_body, pack_boundary.
      assert (Hz : (Z.of_nat i =? 0) || (Z.of_nat i mod 255 =? 0)
                   = (Z.of_nat i mod 255 =? 0)).
      { by destruct (Z.eqb_spec (Z.of_nat i) 0) as [->|]. }
      rewrite Hz. destruct (Z.of_nat i mod 255 =? 0).
      * injection He as <- <-. cbn [length] in Hfit.
        cbn [beaconFrame].
        destruct (vec_store b cur IDWhisperPayload) as [b1|] eqn:H1; [|done].
        apply vec_store_Some_inv in H1 as (H1 & Hl1 & _).
        cbn [mbind option_bind set_beaconFrame essidLength payloadSize beaconFrame
             headerLength].
        destruct (L - Z.of_nat i <? chunkSize);
          cbn [set_payloadSize set_beaconFrame essidLength payloadSize beaconFrame
               headerLength];
          (match goal with |- context [vec_store ?v (?c + 1) ?x] =>
             destruct (vec_store v (c + 1) x) as [b2|] eqn:H2 end; [|done]);
          apply vec_store_Some_inv in H2 as (H2 & Hl2 & _);
          cbn [mbind option_bind set_beaconFrame essidLength payloadSize beaconFrame
               headerLength];
          rewrite vec_store_full by lia; done.
      * injection He as <- <-. cbn [length] in Hfit.
        cbn [mbind option_bind beaconFrame].
        rewrite vec_store_full by lia. done.
Qed.

End LoopStream.

(** ** Counting slices *)

Section SliceCount.
Import Frame Chunks.

Lemma slice_count_0 : slice_count 0 = 0.
Proof. reflexivity. Qed.

Lemma slice_count_pos x : 0 < x -> 0 < slice_count x.
Proof.
  intros Hx. unfold slice_count, chunkSize.
  apply Z.div_str_pos. lia.
Qed.

Lemma slice_count_step x : 255 <= x -> slice_count x = slice_count (x - 255) + 1.
Proof.
  intros Hx. unfold slice_count, chunkSize.
  replace (x + (255 - 1)) with (x - 255 + (255 - 1) + 1 * 255) by lia.
  rewrite Z.div_add by lia. lia.
Qed.

Lemma slice_count_last x : 0 < x < 255 -> slice_count x = 1.
Proof.
  intros Hx. unfold slice_count, chunkSize.
  replace (x + (255 - 1)) with (x - 1 + 1 * 255) by lia.
  rewrite Z.div_add, Z.div_small by lia. lia.
Qed.

End SliceCount.

(** ** The stream, chunk by chunk *)

Section StreamChunks.
Import Frame Layout Chunks.

Variable jsonString : list byte.
Let L : Z := Z.of_nat (length jsonString).

Lemma stream_split n : forall m i p,
  stream L jsonString i (n + m) p =
    let '(o1, p1) := stream L jsonString i n p in
    let '(o2, p2) := stream L jsonString (i + n) m p1 in
    (o1 ++ o2, p2).
Proof.
  induction n as [|n IH]; intros m i p; cbn [stream Nat.add].
  - rewrite Nat.add_0_r. by destruct (stream _ _ _ _ _).
  - destruct (emit _ _ _ _) as [o p']. rewrite IH.
    destruct (stream L jsonString (S i) n p') as [o1 p1].
    replace (i + S n)%nat with (S i + n)%nat by lia.
    destruct (stream L jsonString (S i + n) m p1) as [o2 p2].
    by rewrite app_assoc.
Qed.

Lemma take_S_drop (i n : nat) :
  (i < length jsonString)%nat ->
  take (S n) (drop i jsonString) = char_at jsonString i :: take n (drop (S i) jsonString).
Proof.
  intros Hi. destruct (lookup_lt_is_Some_2 jsonString i Hi) as [c Hc].
  unfold char_at. rewrite Hc. cbn [default].
  by rewrite (drop_S _ _ _ Hc).
Qed.

(** Between two boundaries only data bytes are appended. *)
Lemma stream_data n : forall i p,
  (forall j, (i <= j < i + n)%nat -> Z.of_nat j mod 255 ≠ 0) ->
  (i + n <= length jsonString)%nat ->
  stream L jsonString i n p = (nextByte <$> take n (drop i jsonString), p).
Proof.
  induction n as [|n IH]; intros i p Hnb Hlen; cbn [stream].
  - by rewrite take_0.
  - unfold emit. destruct (Z.eqb_spec (Z.of_nat i mod 255) 0) as [E|_].
    { exfalso. apply (Hnb i); [lia|done]. }
    rewrite IH by (try lia; intros j Hj; apply Hnb; lia).
    rewrite take_S_drop by lia. done.
Qed.

(** From a boundary, up to [chunkSize] bytes make one encoded chunk. *)
Lemma stream_chunk i n p :
  Z.of_nat i mod 255 = 0 ->
  (0 < n <= 255)%nat ->
  (i + n <= length jsonString)%nat ->
  let p' := if L - Z.of_nat i <? chunkSize then L - Z.of_nat i else p in
  stream L jsonString i n p =
    (encode {| marker := IDWhisperPayload; len_byte := uint8_t p';
               data := nextByte <$> take n (drop i jsonString) |}, p').
Proof.
  intros Hi Hn Hlen p'. destruct n as [|n]; [lia|]. cbn [stream].
  unfold emit. rewrite (proj2 (Z.eqb_eq _ _) Hi). fold p'.
  rewrite stream_data; [| |lia].
  - rewrite take_S_drop by lia. done.
  - intros j Hj E.
    assert (Z.of_nat j = Z.of_nat i + (Z.of_nat j - Z.of_nat i)) as Hd by lia.
    rewrite Hd in E. rewrite Z.add_mod, Hi, Z.add_0_l, Z.mod_mod in E by lia.
    rewrite Z.mod_small in E by lia. lia.
Qed.

(** From the [k]-th boundary on, the loop appends the encodings of the
    remaining chunks; [payloadSize] changes only in a short last one. *)
Lemma stream_from_boundary m : forall k p,
  (255 * k <= length jsonString)%nat ->
  m = Z.to_nat (slice_count (L - Z.of_nat (255 * k))) ->
  stream L jsonString (255 * k) (length jsonString - 255 * k) p =
    (concat (encode <$> (nth_chunk p jsonString <$> seq k m)),
     if L mod 255 =? 0 then p else L mod 255).
Proof.
  induction m as [|m IH]; intros k p Hk Hm.
  - assert (L - Z.of_nat (255 * k) = 0) as H0.
    { destruct (Z.eq_dec (L - Z.of_nat (255 * k)) 0) as [|Hne]; [done|].
      pose proof (slice_count_pos (L - Z.of_nat (255 * k))). unfold L in *. lia. }
    replace (length jsonString - 255 * k)%nat with 0%nat by (unfold L in H0; lia).
    cbn. f_equal.
    replace L with (Z.of_nat k * 255) by lia. by rewrite Z.mod_mul.
  - destruct (decide (255 <= length jsonString - 255 * k)%nat) as [Hfull|Hshort].
    + replace (length jsonString - 255 * k)%nat
        with (255 + (length jsonString - 255 * S k))%nat by lia.
      rewrite stream_split.
      rewrite stream_chunk; [| |lia|lia].
      2:{ rewrite Nat2Z.inj_mul, Z.mul_comm. apply Z.mod_mul. lia. }
      assert ((L - Z.of_nat (255 * k) <? chunkSize) = false) as Hge.
      { apply Z.ltb_ge. unfold chunkSize, L. lia. }
      rewrite Hge at 1.
      replace (255 * k + 255)%nat with (255 * S k)%nat by lia.
      rewrite (IH (S k) p); [|lia|].
      2:{ rewrite slice_count_step in Hm by (unfold L; lia).
          replace (L - Z.of_nat (255 * S k)) with (L - Z.of_nat (255 * k) - 255) by lia.
          pose proof (Z.div_pos (L - Z.of_nat (255 * k) - 255 + (chunkSize - 1)) chunkSize).
          unfold slice_count in *. unfold chunkSize in *. lia. }
      reflexivity.
    + assert (0 < L - Z.of_nat (255 * k) < 255) as Hr.
      { split; [|unfold L; lia].
        destruct (Z.eq_dec (L - Z.of_nat (255 * k)) 0) as [E|]; [|unfold L in *; lia].
        rewrite E, slice_count_0 in Hm. done. }
      rewrite slice_count_last in Hm by done.
      assert (m = 0%nat) as -> by lia.
      rewrite stream_chunk; [| |unfold L in Hr; lia|lia].
      2:{ rewrite Nat2Z.inj_mul, Z.mul_comm. apply Z.mod_mul. lia. }
      assert ((L - Z.of_nat (255 * k) <? chunkSize) = true) as Hlt.
      { apply Z.ltb_lt. unfold chunkSize. lia. }
      rewrite Hlt. cbn [seq fmap list_fmap concat]. rewrite app_nil_r.
      assert (L mod 255 = L - Z.of_nat (255 * k)) as Hmod.
      { replace L with ((L - Z.of_nat (255 * k)) + Z.of_nat k * 255) at 1 by lia.
        rewrite Z.mod_add, Z.mod_small by lia. done. }
      rewrite Hmod. destruct (Z.eqb_spec (L - Z.of_nat (255 * k)) 0); [lia|].
      f_equal. unfold nth_chunk, encode. cbn [marker len_byte data].
      fold L. change (Z.to_nat chunkSize) with 255%nat. rewrite Hlt.
      do 3 f_equal. rewrite !take_ge; [done| |]; rewrite length_drop; lia.
Qed.

(** The whole loop appends the encodings of [laid_out]. *)
Lemma stream_laid_out p :
  stream L jsonString 0 (length jsonString) p =
    (concat (encode <$> laid_out p jsonString),
     if L mod 255 =? 0 then p else L mod 255).
Proof.
  pose proof (stream_from_boundary
                (Z.to_nat (slice_count L)) 0 p) as H.
  cbn [Nat.mul] in H. rewrite Nat.sub_0_r, Z.sub_0_r in H.
  apply H; [lia|done].
Qed.

End StreamChunks.

(** ** The laid-out chunks *)

Section LaidOut.
Import Frame Layout Chunks.

Variable p : Z.
Variable jsonString : list byte.
Let L : Z := Z.of_nat (length jsonString).

(** A chunk that is followed by another boundary or by the end of a
    document whose length is a multiple of [chunkSize]. *)
Lemma nth_chunk_full k :
  (255 * S k <= length jsonString)%nat ->
  nth_chunk p jsonString k =
    {| marker := IDWhisperPayload; len_byte := uint8_t p;
       data := nextByte <$> take 255 (drop (255 * k) jsonString) |}
  /\ length (data (nth_chunk p jsonString k)) = 255%nat.
Proof.
  intros Hk. unfold nth_chunk. change (Z.to_nat chunkSize) with 255%nat.
  assert ((Z.of_nat (length jsonString) - Z.of_nat (255 * k) <? chunkSize) = false) as ->.
  { apply Z.ltb_ge. unfold chunkSize. lia. }
  split; [done|]. cbn [data]. rewrite length_fmap, length_take, length_drop. lia.
Qed.

(** The last chunk of a document whose length is no multiple of [chunkSize]. *)
Lemma nth_chunk_short k :
  (0 < length jsonString - 255 * k < 255)%nat ->
  nth_chunk p jsonString k =
    {| marker := IDWhisperPayload; len_byte := L mod 255;
       data := nextByte <$> drop (255 * k) jsonString |}
  /\ L mod 255 = Z.of_nat (length jsonString - 255 * k)
  /\ L / 255 = Z.of_nat k.
Proof.
  intros Hk. unfold nth_chunk. change (Z.to_nat chunkSize) with 255%nat.
  assert ((Z.of_nat (length jsonString) - Z.of_nat (255 * k) <? chunkSize) = true) as ->.
  { apply Z.ltb_lt. unfold chunkSize. lia. }
  assert (L = Z.of_nat (length jsonString - 255 * k) + Z.of_nat k * 255) as HL
    by (unfold L; lia).
  assert (L mod 255 = Z.of_nat (length jsonString - 255 * k)) as Hmod.
  { rewrite HL, Z.mod_add, Z.mod_small by lia. done. }
  assert (L / 255 = Z.of_nat k) as Hdiv.
  { rewrite HL, Z.div_add, Z.div_small by lia. lia. }
  split; [|done]. f_equal.
  - rewrite Hmod. unfold uint8_t. change (2 ^ 8) with 256.
    rewrite Z.mod_small by lia. lia.
  - rewrite take_ge; [done|]. rewrite length_drop. lia.
Qed.

(** Induction along the chunks laid out from the [k]-th boundary on. *)
Lemma laid_out_ind (P : nat -> list chunk -> Prop) :
  (forall k, (255 * k = length jsonString)%nat -> P k []) ->
  (forall k, (0 < length jsonString - 255 * k < 255)%nat ->
             P k [nth_chunk p jsonString k]) ->
  (forall k cs, (255 * S k <= length jsonString)%nat ->
                P (S k) cs -> P k (nth_chunk p jsonString k :: cs)) ->
  forall m k,
    (255 * k <= length jsonString)%nat ->
    m = Z.to_nat (slice_count (L - Z.of_nat (255 * k))) ->
    P k (nth_chunk p jsonString <$> seq k m).
Proof.
  intros Hend Hshort Hfull. induction m as [|m IH]; intros k Hk Hm.
  - apply Hend.
    destruct (Z.eq_dec (L - Z.of_nat (255 * k)) 0) as [|Hne]; [unfold L in *; lia|].
    pose proof (slice_count_pos (L - Z.of_nat (255 * k))). unfold L in *. lia.
  - cbn [seq fmap list_fmap].
    destruct (decide (255 <= length jsonString - 255 * k)%nat) as [Hf|Hs].
    + apply Hfull; [lia|]. apply IH; [lia|].
      rewrite slice_count_step in Hm by (unfold L; lia).
      replace (L - Z.of_nat (255 * S k)) with (L - Z.of_nat (255 * k) - 255) by lia.
      pose proof (Z.div_pos (L - Z.of_nat (255 * k) - 255 + (chunkSize - 1)) chunkSize).
      unfold slice_count in *. unfold chunkSize in *. lia.
    + assert (0 < L - Z.of_nat (255 * k) < 255) as Hr.
      { split; [|unfold L; lia].
        destruct (Z.eq_dec (L - Z.of_nat (255 * k)) 0) as [E|]; [|unfold L in *; lia].
        rewrite E, slice_count_0 in Hm. done. }
      rewrite slice_count_last in Hm by done.
      assert (m = 0%nat) as -> by lia.
      apply Hshort. unfold L in Hr. lia.
Qed.

Lemma laid_out_ind0 (P : nat -> list chunk -> Prop) :
  (forall k, (255 * k = length jsonString)%nat -> P k []) ->
  (forall k, (0 < length jsonString - 255 * k < 255)%nat ->
             P k [nth_chunk p jsonString k]) ->
  (forall k cs, (255 * S k <= length jsonString)%nat ->
                P (S k) cs -> P k (nth_chunk p jsonString k :: cs)) ->
  P 0%nat (laid_out p jsonString).
Proof.
  intros Hend Hshort Hfull.
  apply (laid_out_ind P Hend Hshort Hfull); [lia|].
  cbn [Nat.mul]. by rewrite Z.sub_0_r.
Qed.

Lemma laid_out_length :
  Z.of_nat (length (laid_out p jsonString)) = slice_count L.
Proof.
  unfold laid_out. rewrite length_fmap, length_seq. fold L.
  pose proof (Z.div_pos (L + (chunkSize - 1)) chunkSize).
  unfold slice_count in *. unfold chunkSize, L in *. lia.
Qed.

Lemma laid_out_well_sliced : well_sliced (laid_out p jsonString).
Proof.
  apply (laid_out_ind0 (fun _ cs => well_sliced cs)).
  - done.
  - intros k Hk. cbn [well_sliced]. destruct (nth_chunk_short k Hk) as [-> _].
    cbn [data]. rewrite length_fmap, length_drop.
    change (Z.to_nat chunkSize) with 255%nat. lia.
  - intros k cs Hk Hcs. destruct (nth_chunk_full k Hk) as [_ Hlen].
    destruct cs; cbn [well_sliced]; [|done].
    rewrite Hlen. change (Z.to_nat chunkSize) with 255%nat. lia.
Qed.

Lemma laid_out_markers :
  Forall (fun c => marker c = IDWhisperPayload) (laid_out p jsonString).
Proof.
  unfold laid_out. apply Forall_fmap, Forall_true. done.
Qed.

(** The data bytes of the chunks, concatenated, are the stored document. *)
Lemma laid_out_data :
  concat (data <$> laid_out p jsonString) = nextByte <$> jsonString.
Proof.
  apply (laid_out_ind0
           (fun k cs => concat (data <$> cs) = nextByte <$> drop (255 * k) jsonString)).
  - intros k Hk. rewrite drop_ge by lia. done.
  - intros k Hk. destruct (nth_chunk_short k Hk) as [-> _].
    cbn [fmap list_fmap concat data]. by rewrite app_nil_r.
  - intros k cs Hk Hcs. destruct (nth_chunk_full k Hk) as [-> _].
    cbn [fmap list_fmap concat data]. rewrite Hcs.
    rewrite <- fmap_app. f_equal.
    replace (255 * S k)%nat with (255 * k + 255)%nat by lia.
    rewrite <- drop_drop. apply take_drop.
Qed.

(** The length bytes: the entry [payloadSize] for every full chunk, the
    remainder for a short last one. *)
Lemma laid_out_len_bytes :
  len_byte <$> laid_out p jsonString =
    replicate (Z.to_nat (L / 255)) (uint8_t p)
      ++ (if L mod 255 =? 0 then [] else [L mod 255]).
Proof.
  rewrite <- (Nat.sub_0_r (Z.to_nat (L / 255))).
  apply (laid_out_ind0
           (fun k cs => len_byte <$> cs =
              replicate (Z.to_nat (L / 255) - k) (uint8_t p)
                ++ (if L mod 255 =? 0 then [] else [L mod 255]))).
  - intros k Hk.
    assert (L = Z.of_nat k * 255) as HL by (unfold L; lia).
    rewrite HL, Z.mod_mul, Z.div_mul by lia.
    rewrite Nat2Z.id, Nat.sub_diag. done.
  - intros k Hk. destruct (nth_chunk_short k Hk) as (-> & Hmod & Hdiv).
    rewrite Hdiv, Nat2Z.id, Nat.sub_diag.
    destruct (Z.eqb_spec (L mod 255) 0); [lia|]. done.
  - intros k cs Hk Hcs. destruct (nth_chunk_full k Hk) as [-> _].
    cbn [fmap list_fmap len_byte]. rewrite Hcs.
    assert (Z.of_nat (S k) <= L / 255) as Hq.
    { apply Z.div_le_lower_bound; unfold L; lia. }
    replace (Z.to_nat (L / 255) - k)%nat with (S (Z.to_nat (L / 255) - S k)) by lia.
    done.
Qed.

End LaidOut.

(** ** Reading encoded chunks back *)

Section Decoders.
Import Frame Chunks.

Lemma encode_length (cs : list chunk) :
  length (concat (encode <$> cs)) =
    (2 * length cs + length (concat (data <$> cs)))%nat.
Proof.
  induction cs as [|c cs IH]; [done|].
  cbn [fmap list_fmap concat encode length app]. rewrite !length_app, IH. cbn. lia.
Qed.

Lemma read_slices_encode (cs : list chunk) : forall fuel,
  well_sliced cs -> (length cs <= fuel)%nat ->
  read_slices fuel (concat (encode <$> cs)) = Some cs.
Proof.
  induction cs as [|c cs IH]; intros fuel Hws Hfuel.
  - by destruct fuel.
  - destruct fuel as [|fuel]; [cbn in Hfuel; lia|].
    cbn [fmap list_fmap concat encode app read_slices].
    destruct c as [m l d]; cbn [marker len_byte data] in *.
    destruct cs as [|c' cs].
    + cbn [well_sliced data] in Hws. cbn [fmap list_fmap concat]. rewrite app_nil_r.
      rewrite drop_ge, take_ge by lia. by destruct fuel.
    + destruct Hws as [Hd Hws]. cbn [data] in Hd.
      rewrite <- Hd, drop_app_length, take_app_length.
      rewrite IH; [done|done|]. cbn [length] in *. lia.
Qed.

Lemma slices_encode (cs : list chunk) :
  well_sliced cs -> slices (concat (encode <$> cs)) = Some cs.
Proof.
  intros Hws. unfold slices. apply read_slices_encode; [done|].
  rewrite encode_length. lia.
Qed.

Lemma read_tlv_encode (cs : list chunk) : forall fuel,
  Forall (fun c => len_byte c = Z.of_nat (length (data c))) cs ->
  (length cs <= fuel)%nat ->
  read_tlv fuel (concat (encode <$> cs)) = Some cs.
Proof.
  induction cs as [|c cs IH]; intros fuel Hl Hfuel.
  - by destruct fuel.
  - destruct fuel as [|fuel]; [cbn in Hfuel; lia|].
    apply Forall_cons in Hl as [Hc Hl].
    cbn [fmap list_fmap concat encode app read_tlv].
    destruct c as [m l d]; cbn [marker len_byte data] in *. subst l.
    rewrite bool_decide_true by (rewrite length_app; lia).
    rewrite Nat2Z.id, drop_app_length, take_app_length.
    rewrite IH; [done|done|]. cbn [length] in *. lia.
Qed.

Lemma tlv_encode (cs : list chunk) :
  Forall (fun c => len_byte c = Z.of_nat (length (data c))) cs ->
  tlv (concat (encode <$> cs)) = Some cs.
Proof.
  intros Hl. unfold tlv. apply read_tlv_encode; [done|].
  rewrite encode_length. lia.
Qed.

(** Where the [j]-th data byte of a well-sliced chunk list is encoded. *)
Lemma encode_lookup (cs : list chunk) : forall j,
  well_sliced cs ->
  (j < length (concat (data <$> cs)))%nat ->
  concat (encode <$> cs) !! (2 * (j / 255 + 1) + j)%nat = concat (data <$> cs) !! j.
Proof.
  induction cs as [|c cs IH]; intros j Hws Hj; [cbn in Hj; lia|].
  destruct c as [m l d]. cbn [fmap list_fmap concat data] in *.
  change (encode (mkChunk m l d)) with (m :: l :: d).
  destruct (decide (j < length d)%nat) as [Hin|Hout].
  - assert (length d <= 255)%nat as Hd.
    { destruct cs; cbn [well_sliced data] in Hws;
        change (Z.to_nat chunkSize) with 255%nat in Hws; lia. }
    rewrite Nat.div_small by lia. cbn [Nat.add Nat.mul app lookup list_lookup].
    rewrite (lookup_app_l d (concat (encode <$> cs))) by lia.
    rewrite (lookup_app_l d (concat (data <$> cs))) by lia. reflexivity.
  - destruct cs as [|c' cs].
    { cbn [fmap list_fmap concat] in Hj. rewrite app_nil_r in Hj. lia. }
    destruct Hws as [Hd Hws]. cbn [data] in Hd.
    change (Z.to_nat chunkSize) with 255%nat in Hd.
    rewrite length_app, Hd in Hj.
    replace j with ((j - 255) + 1 * 255)%nat at 1 by lia.
    rewrite Nat.div_add by lia.
    replace (2 * ((j - 255) / 255 + 1 + 1) + j)%nat
      with (length (m :: l :: d) + (2 * ((j - 255) / 255 + 1) + (j - 255)))%nat
      by (cbn [length]; lia).
    rewrite lookup_app_r by lia.
    replace (length (m :: l :: d) + (2 * ((j - 255) / 255 + 1) + (j - 255))
             - length (m :: l :: d))%nat
      with (2 * ((j - 255) / 255 + 1) + (j - 255))%nat by lia.
    rewrite IH by (done || lia).
    rewrite (lookup_app_r d) by lia. by rewrite Hd.
Qed.

(** The whole-buffer reader finds the encoded chunks again when their
    length bytes count their data and the bytes after them do not start
    with the payload marker. *)
Lemma read_payload_encode (cs : list chunk) (slack : list Z) : forall fuel,
  Forall (fun c => marker c = IDWhisperPayload) cs ->
  Forall (fun c => len_byte c = Z.of_nat (length (data c))) cs ->
  (length cs <= fuel)%nat ->
  head slack <> Some IDWhisperPayload ->
  read_payload fuel (concat (encode <$> cs) ++ slack) = cs.
Proof.
  induction cs as [|c cs IH]; intros fuel Hm Hl Hfuel Hstop.
  - cbn [fmap list_fmap concat app].
    destruct slack as [|m [|l rest]]; [by destruct fuel..|].
    cbn [head] in Hstop.
    destruct fuel; cbn [read_payload];
      (destruct (Z.eqb_spec m IDWhisperPayload) as [->|_]; [done|reflexivity]).
  - destruct fuel as [|fuel]; [cbn in Hfuel; lia|].
    apply Forall_cons in Hm as [Hc Hm]. apply Forall_cons in Hl as [Hd Hl].
    destruct c as [m l d]; cbn [marker len_byte data] in *. subst m l.
    cbn [fmap list_fmap concat encode app read_payload marker len_byte data].
    rewrite Z.eqb_refl, bool_decide_true by (rewrite !length_app; lia).
    cbn [andb]. rewrite <- app_assoc, Nat2Z.id, take_app_length, drop_app_length.
    f_equal. apply IH; [done|done| |done]. cbn [length] in Hfuel. lia.
Qed.

End Decoders.

(** ** [pack] as a whole *)

Section PackRun.
Import Frame Layout Chunks.

Variable s : statics.
Variable jsonString : list byte.
Let L : Z := Z.of_nat (length jsonString).
Let hl : Z := uint8_t (uint8_t (L / 255) * 2).
Let capacity : Z := size_t (pwngridHeaderLength + L + hl + chunkSize).
Let W : list Z := concat (encode <$> laid_out (payloadSize s) jsonString).

Lemma written_length : Z.of_nat (length W) = L + 2 * slice_count L.
Proof.
  unfold W. rewrite encode_length, laid_out_data, length_fmap.
  pose proof (laid_out_length (payloadSize s) jsonString). unfold L. lia.
Qed.

Lemma slice_count_bounds : L / 255 <= slice_count L <= L / 255 + 1.
Proof.
  unfold slice_count, chunkSize.
  assert (0 <= L) by (unfold L; lia).
  split.
  - apply Z.div_le_mono; lia.
  - replace (L / 255 + 1) with ((L + 1 * 255) / 255) by (rewrite Z.div_add; lia).
    apply Z.div_le_mono; lia.
Qed.

(** The resized buffer is large enough: [pack] completes, and leaves the
    header, the encoded chunks and the untouched rest of the buffer. *)
Lemma pack_run_fits :
  pwngridHeaderLength + Z.of_nat (length W) <= capacity ->
  pack_run s jsonString =
    Some (pwngridHeaderLength + Z.of_nat (length W),
          {| payloadSize := if L mod 255 =? 0 then payloadSize s else L mod 255;
             beaconFrame :=
               header ++ W ++
               drop (length header + length W) (vec_resize (beaconFrame s) capacity);
             essidLength := L; headerLength := hl |}).
Proof.
  intros Hfit. unfold pack_run. fold L. fold hl. fold capacity.
  set (b := vec_resize (beaconFrame s) capacity).
  assert (Z.of_nat (length b) = capacity) as Hb.
  { unfold b, vec_resize. rewrite length_resize.
    unfold capacity, size_t. pose proof (Z.mod_pos_bound
      (pwngridHeaderLength + L + hl + chunkSize) (2 ^ 32)). lia. }
  unfold memcpy. unfold pwngridHeaderLength in *.
  rewrite bool_decide_true by lia. cbn [mbind option_bind].
  pose proof (stream_laid_out jsonString (payloadSize s)) as Hst.
  cbv zeta in Hst. fold L in Hst. fold W in Hst.
  erewrite (for_loop_stream jsonString (length jsonString) 0 _
              header (drop (length header) b) W _).
  - cbn [essidLength headerLength]. rewrite length_app, Nat2Z.inj_add.
    rewrite drop_drop. reflexivity.
  - exact Hst.
  - done.
  - rewrite length_drop. lia.
Qed.

(** The resized buffer is too small: a store lands past its end. *)
Lemma pack_run_overflows :
  capacity < pwngridHeaderLength + Z.of_nat (length W) ->
  pack_run s jsonString = None.
Proof.
  intros Hover. unfold pack_run. fold L. fold hl. fold capacity.
  set (b := vec_resize (beaconFrame s) capacity).
  assert (Z.of_nat (length b) = capacity) as Hb.
  { unfold b, vec_resize. rewrite length_resize.
    unfold capacity, size_t. pose proof (Z.mod_pos_bound
      (pwngridHeaderLength + L + hl + chunkSize) (2 ^ 32)). lia. }
  unfold memcpy. unfold pwngridHeaderLength in *.
  case_bool_decide as Hh; [|done]. cbn [mbind option_bind].
  apply for_loop_overflow; cbn [beaconFrame essidLength payloadSize].
  - rewrite length_app, length_drop. lia.
  - pose proof (stream_laid_out jsonString (payloadSize s)) as Hst.
    cbv zeta in Hst. fold L in Hst. fold W in Hst. rewrite Hst. cbn [fst].
    rewrite length_app, length_drop. lia.
Qed.

(** Below 32640 bytes neither the [uint8_t] estimate nor the size wraps. *)
Lemma capacity_small :
  L < 32640 ->
  hl = 2 * (L / 255) /\ capacity = pwngridHeaderLength + L + 2 * (L / 255) + chunkSize.
Proof.
  intros HL. assert (0 <= L) by (unfold L; lia).
  assert (0 <= L / 255 < 128) as Hq.
  { split; [apply Z.div_pos; lia|]. apply Z.div_lt_upper_bound; lia. }
  assert (hl = 2 * (L / 255)) as Hhl.
  { unfold hl, uint8_t. change (2 ^ 8) with 256.
    rewrite (Z.mod_small (L / 255)) by lia. rewrite Z.mod_small by lia. lia. }
  split; [done|]. unfold capacity. rewrite Hhl.
  unfold size_t, pwngridHeaderLength, chunkSize. cbn [length header].
  apply Z.mod_small. change (2 ^ 32) with 4294967296. lia.
Qed.

Lemma pack_run_small :
  L < 32640 ->
  pack_run s jsonString =
    Some (pwngridHeaderLength + Z.of_nat (length W),
          {| payloadSize := if L mod 255 =? 0 then payloadSize s else L mod 255;
             beaconFrame :=
               header ++ W ++
               drop (length header + length W) (vec_resize (beaconFrame s) capacity);
             essidLength := L; headerLength := hl |}).
Proof.
  intros HL. apply pack_run_fits.
  destruct (capacity_small HL) as [_ Hc]. rewrite Hc.
  rewrite written_length. pose proof slice_count_bounds. unfold chunkSize. lia.
Qed.

(** The region between the header and the cursor is what was appended. *)
Lemma region_written (rest : list Z) (p' hl' L' : Z) :
  region (pwngridHeaderLength + Z.of_nat (length W),
          {| payloadSize := p'; beaconFrame := header ++ W ++ rest;
             essidLength := L'; headerLength := hl' |}) = W.
Proof.
  unfold region. cbn [fst snd beaconFrame]. unfold pwngridHeaderLength.
  rewrite Nat2Z.id, drop_app_length.
  replace (Z.to_nat (Z.of_nat (length header) + Z.of_nat (length W) - Z.of_nat (length header)))
    with (length W) by lia.
  apply take_app_length.
Qed.

End PackRun.

(** ** Characters and length bytes *)

Section Bytes.
Import Frame Layout Chunks.

(** ASCII characters are stored as they are, all others as ['?']. *)
Lemma nextByte_spec (c : byte) :
  nextByte c = if char_val c <? 128 then char_val c else 0x3F.
Proof. destruct c; reflexivity. Qed.

Lemma nextByte_range (c : byte) : 0 <= nextByte c < 128.
Proof. destruct c; vm_compute; split; congruence. Qed.

(** [isAscii] gives the same verdict when [char] is signed. *)
Lemma isAscii_signed (c : byte) :
  isAscii (if char_val c <? 128 then char_val c else char_val c - 256)
  = isAscii (char_val c).
Proof. destruct c; reflexivity. Qed.

Lemma sumZ_app (l1 l2 : list Z) : sumZ (l1 ++ l2) = sumZ l1 + sumZ l2.
Proof. induction l1 as [|x l1 IH]; cbn; [done|]. unfold sumZ in *. lia. Qed.

Lemma sumZ_replicate (n : nat) (x : Z) : sumZ (replicate n x) = Z.of_nat n * x.
Proof. induction n as [|n IH]; [done|]. cbn [replicate sumZ foldr] in *. unfold sumZ in IH. lia. Qed.

(** Entered with [payloadSize = 255], the loop writes length bytes that
    count the data bytes of their chunk. *)
Lemma laid_out_fresh_len (jsonString : list byte) :
  Forall (fun c => len_byte c = Z.of_nat (length (data c))) (laid_out 255 jsonString).
Proof.
  apply (laid_out_ind0 255 jsonString
           (fun _ cs => Forall (fun c => len_byte c = Z.of_nat (length (data c))) cs)).
  - done.
  - intros k Hk. destruct (nth_chunk_short 255 jsonString k Hk) as (-> & Hmod & _).
    apply Forall_singleton. cbn [len_byte data].
    rewrite length_fmap, length_drop. lia.
  - intros k cs Hk Hcs. apply Forall_cons. split; [|done].
    destruct (nth_chunk_full 255 jsonString k Hk) as [E Hlen].
    rewrite Hlen. rewrite E. reflexivity.
Qed.

Lemma laid_out_fresh_sum (jsonString : list byte) :
  sumZ (len_byte <$> laid_out 255 jsonString) = Z.of_nat (length jsonString).
Proof.
  rewrite laid_out_len_bytes, sumZ_app, sumZ_replicate.
  set (L := Z.of_nat (length jsonString)).
  assert (0 <= L) by (unfold L; lia).
  pose proof (Z.div_pos L 255). pose proof (Z.div_mod L 255).
  rewrite Z2Nat.id by lia. change (uint8_t 255) with 255.
  destruct (Z.eqb_spec (L mod 255) 0); cbn; lia.
Qed.

End Bytes.

(** ** What [pack] leaves behind *)

Section PackResult.
Import Frame Layout Chunks.

(** For documents below 32640 bytes [pack] completes; the written region
    holds the laid-out chunks, the buffer keeps its resized length. *)
Lemma pack_run_chunks (s : statics) (jsonString : list byte) :
  let L := Z.of_nat (length jsonString) in
  L < 32640 ->
  exists r,
    pack_run s jsonString = Some r /\
    region r = concat (encode <$> laid_out (payloadSize s) jsonString) /\
    slices (region r) = Some (laid_out (payloadSize s) jsonString) /\
    fst r = pwngridHeaderLength + L + 2 * slice_count L /\
    payloadSize (snd r) = (if L mod 255 =? 0 then payloadSize s else L mod 255) /\
    Z.of_nat (length (beaconFrame (snd r)))
      = pwngridHeaderLength + L + 2 * (L / 255) + chunkSize /\
    take (length header) (beaconFrame (snd r)) = header.
Proof.
  intros L HL. eexists. split; [apply pack_run_small; exact HL|].
  pose proof (written_length s jsonString) as HW.
  pose proof (slice_count_bounds jsonString) as Hsc.
  destruct (capacity_small jsonString HL) as [Hhl Hcap].
  cbv zeta in *. fold L in HW, Hsc, Hhl, Hcap |- *.
  rewrite region_written. split; [done|].
  split; [apply slices_encode, laid_out_well_sliced|].
  cbn [fst snd payloadSize beaconFrame].
  split; [lia|]. split; [done|]. split.
  - rewrite !length_app, length_drop. unfold vec_resize. rewrite length_resize.
    rewrite Hcap. unfold pwngridHeaderLength, chunkSize in *. lia.
  - apply take_app_length.
Qed.

Lemma region_lookup (r : Z * statics) (k : nat) :
  (k < length (region r))%nat ->
  beaconFrame (snd r) !! (length header + k)%nat = region r !! k.
Proof.
  unfold region. intros Hk. rewrite length_take in Hk.
  rewrite lookup_take_lt by lia. rewrite lookup_drop.
  unfold pwngridHeaderLength. by rewrite Nat2Z.id.
Qed.

Lemma pack_run_statics (s : statics) (jsonString : list byte) (r : Z * statics) :
  let L := Z.of_nat (length jsonString) in
  L < 32640 ->
  pack_run s jsonString = Some r ->
  headerLength (snd r) = 2 * (L / 255) /\ essidLength (snd r) = L.
Proof.
  intros L HL Hr. rewrite (pack_run_small s jsonString HL) in Hr.
  injection Hr as <-. cbn [snd headerLength essidLength].
  destruct (capacity_small jsonString HL) as [Hhl _]. done.
Qed.

(** From 32640 bytes on the estimate has wrapped and a store lands past
    the end of the buffer. *)
Lemma pack_run_large (s : statics) (jsonString : list byte) :
  32640 <= Z.of_nat (length jsonString) -> pack_run s jsonString = None.
Proof.
  intros HL. apply pack_run_overflows.
  rewrite written_length. pose proof (slice_count_bounds jsonString) as Hsc.
  cbv zeta in Hsc.
  set (L := Z.of_nat (length jsonString)) in *.
  set (q := L / 255) in *.
  assert (128 <= q) as Hq by (apply Z.div_le_lower_bound; lia).
  set (hl := uint8_t (uint8_t q * 2)).
  assert (hl + 255 < 2 * q) as Hhl.
  { unfold hl, uint8_t. change (2 ^ 8) with 256.
    pose proof (Z.mod_pos_bound q 256). pose proof (Z.mod_pos_bound (q mod 256 * 2) 256).
    destruct (Z_lt_dec q 256) as [Hlt|Hge]; [|lia].
    rewrite (Z.mod_small q) by lia.
    replace (q * 2) with (q * 2 - 256 + 1 * 256) by lia.
    rewrite Z.mod_add, Z.mod_small by lia. lia. }
  unfold size_t.
  pose proof (Z.mod_le (pwngridHeaderLength + L + hl + chunkSize) (2 ^ 32)).
  pose proof (Z.mod_pos_bound q 256).
  assert (0 <= hl) by (unfold hl, uint8_t; apply Z.mod_pos_bound; lia).
  unfold pwngridHeaderLength, chunkSize in *. cbn [length header] in *. lia.
Qed.

End PackResult.

(** * The claims about [pack] *)

Section PackClaims.
Import Frame Layout Chunks Samples.

(** C1, as the code has it.  For a serialized document of length
    [L < 32640] the region [pack] writes after the header holds exactly
    [ceil(L / 255)] chunks, each opened by the payload marker; that is no
    chunk at all when [L = 0].  When [payloadSize] is 255 on entry, as it
    is initially, the length bytes add up to [L] and a reader that follows
    the length bytes finds the same chunks. *)
Theorem pack_chunk_count_and_length_sum (s : statics) (jsonString : list byte) :
  Z.of_nat (length jsonString) < 32640 ->
  exists r cs,
    pack_run s jsonString = Some r /\
    slices (region r) = Some cs /\
    Z.of_nat (length cs) = (Z.of_nat (length jsonString) + 254) / 255 /\
    (jsonString = [] -> cs = []) /\
    Forall (fun c => marker c = IDWhisperPayload) cs /\
    (payloadSize s = 255 ->
       sumZ (len_byte <$> cs) = Z.of_nat (length jsonString) /\
       tlv (region r) = Some cs).
Proof.
  intros HL. destruct (pack_run_chunks s jsonString HL) as (r & Hr & Hreg & Hsl & _).
  exists r, (laid_out (payloadSize s) jsonString).
  split; [done|]. split; [done|].
  split; [apply laid_out_length|].
  split; [by intros ->|].
  split; [apply laid_out_markers|].
  intros Hp. rewrite Hreg, Hp. split.
  - apply laid_out_fresh_sum.
  - apply tlv_encode, laid_out_fresh_len.
Qed.

Lemma pack_chunk_count_and_length_sum_witness :
  Z.of_nat (length (letters 300)) < 32640 /\
  payloadSize init = 255 /\
  exists r cs,
    pack_run init (letters 300) = Some r /\
    slices (region r) = Some cs /\
    Z.of_nat (length cs) = 2 /\
    sumZ (len_byte <$> cs) = 300 /\
    tlv (region r) = Some cs.
Proof.
  split; [reflexivity|]. split; [reflexivity|].
  destruct (pack_chunk_count_and_length_sum init (letters 300))
    as (r & cs & H1 & H2 & H3 & _ & _ & H4); [reflexivity|].
  destruct (H4 eq_refl) as [H5 H6].
  exists r, cs. repeat split; assumption.
Defined.

(** C1 as stated fails: the empty document yields no chunk, not one,
    whichever way the region is read; no byte after the header is even a
    payload marker. *)
Lemma pack_empty_document_has_no_chunk :
  ~ (exists r,
       pack_run init [] = Some r /\
       ((exists cs, slices (region r) = Some cs /\ (1 <= length cs)%nat) \/
        (exists cs, tlv (region r) = Some cs /\ (1 <= length cs)%nat) \/
        existsb (Z.eqb IDWhisperPayload) (drop 36 (beaconFrame (snd r))) = true)).
Proof.
  intros (r & Hr & H). vm_compute in Hr. injection Hr as <-.
  destruct H as [(cs & Hcs & Hlen)|[(cs & Hcs & Hlen)|H]].
  - vm_compute in Hcs. injection Hcs as <-. cbn in Hlen. lia.
  - vm_compute in Hcs. injection Hcs as <-. cbn in Hlen. lia.
  - vm_compute in H. discriminate.
Qed.

(** C2 at the failing input: packing the same 300-byte document twice, as
    the advertise loop does, leaves 45 in both length bytes of the second
    frame, although the first chunk carries 255 data bytes. *)
Theorem pack_twice_stale_length_byte :
  exists s1 r cs,
    pack init (letters 300) = Some s1 /\
    pack_run s1 (letters 300) = Some r /\
    slices (region r) = Some cs /\
    len_byte <$> cs = [45; 45] /\
    length <$> (data <$> cs) = [255; 45]%nat /\
    tlv (region r) ≠ Some cs.
Proof.
  do 3 eexists.
  split; [vm_compute; reflexivity|].
  split; [vm_compute; reflexivity|].
  split; [vm_compute; reflexivity|].
  split; [vm_compute; reflexivity|].
  split; [vm_compute; reflexivity|].
  vm_compute. discriminate.
Qed.

(** The length bytes in general: the entry [payloadSize] in every full
    chunk, the remainder in a short last chunk, no further chunk. *)
Lemma pack_length_bytes (s : statics) (jsonString : list byte) :
  let L := Z.of_nat (length jsonString) in
  L < 32640 ->
  exists r cs,
    pack_run s jsonString = Some r /\
    slices (region r) = Some cs /\
    len_byte <$> cs =
      replicate (Z.to_nat (L / 255)) (uint8_t (payloadSize s))
        ++ (if L mod 255 =? 0 then [] else [L mod 255]).
Proof.
  intros L HL. destruct (pack_run_chunks s jsonString HL) as (r & Hr & _ & Hsl & _).
  exists r, (laid_out (payloadSize s) jsonString).
  split; [done|]. split; [done|]. apply laid_out_len_bytes.
Qed.

(** C4, as the code has it.  For the empty document the loop body never
    runs: [pack] resizes the buffer to header plus 255 bytes, copies the
    header, and writes no marker and no length byte; the cursor stays at
    the end of the header and [payloadSize] is untouched.  On the initial
    (empty) vector the 255 bytes after the header are zero. *)
Theorem pack_empty_document (s : statics) :
  exists r,
    pack_run s [] = Some r /\
    r = (pwngridHeaderLength,
         {| payloadSize := payloadSize s;
            beaconFrame := header ++ drop 36 (vec_resize (beaconFrame s) 291);
            essidLength := 0; headerLength := 0 |}) /\
    region r = [] /\
    pack init [] = Some {| payloadSize := 255;
                           beaconFrame := header ++ replicate 255 0;
                           essidLength := 0; headerLength := 0 |}.
Proof.
  eexists. split.
  { unfold pack_run, memcpy. cbn [length for_loop].
    change (size_t _) with 291. unfold vec_resize at 1.
    rewrite bool_decide_true by (rewrite length_resize; cbn; lia).
    reflexivity. }
  split; [reflexivity|]. split; [|reflexivity].
  unfold region. cbn [fst]. by rewrite Z.sub_diag.
Qed.

(** C4 as stated fails: the buffer for the empty document is not the
    header followed by a zero-length chunk, and neither is its written
    region such a chunk. *)
Lemma pack_empty_document_not_zero_chunk :
  ~ (exists r,
       pack_run init [] = Some r /\
       (beaconFrame (snd r) = header ++ [IDWhisperPayload; 0] \/
        region r = [IDWhisperPayload; 0])).
Proof.
  intros (r & Hr & H). vm_compute in Hr. injection Hr as <-.
  destruct H as [H|H]; vm_compute in H; discriminate.
Qed.

(** C5 at the failing input: the same 300-byte document packed twice.
    The second buffer holds every byte of the document where the first
    held it, but its first length byte is the stale 45: a receiver reading
    marker, length byte and that many data bytes takes 45 bytes, meets a
    data byte where a marker should be and stops, so the chunks carry 45
    data bytes in all, not the 300 of the document.  Reading the written
    region alone by its length bytes fails as well. *)
Theorem pack_twice_breaks_roundtrip :
  exists s1 r,
    pack init (letters 300) = Some s1 /\
    pack_run s1 (letters 300) = Some r /\
    (fun j => beaconFrame (snd r) !! (36 + 2 * (j / 255 + 1) + j)%nat) <$> seq 0 300
      = replicate 300 (Some 97) /\
    payload_chunks (beaconFrame s1) =
      [ {| marker := IDWhisperPayload; len_byte := 255; data := replicate 255 97 |};
        {| marker := IDWhisperPayload; len_byte := 45; data := replicate 45 97 |} ] /\
    payload_chunks (beaconFrame (snd r)) =
      [ {| marker := IDWhisperPayload; len_byte := 45; data := replicate 45 97 |} ] /\
    concat (data <$> payload_chunks (beaconFrame (snd r))) = replicate 45 97 /\
    concat (data <$> payload_chunks (beaconFrame (snd r))) <> nextByte <$> letters 300 /\
    tlv (region r) = None.
Proof.
  do 2 eexists.
  split; [vm_compute; reflexivity|].
  split; [vm_compute; reflexivity|].
  split; [vm_compute; reflexivity|].
  split; [vm_compute; reflexivity|].
  split; [vm_compute; reflexivity|].
  split; [vm_compute; reflexivity|].
  split; [vm_compute; discriminate|].
  vm_compute; reflexivity.
Qed.

(** C6.  Whatever the document and the previous contents of the vector,
    [pack] leaves the 36 bytes of the header template at the start of the
    buffer; it fails to complete only for documents of 32640 bytes or
    more, where a store leaves the buffer. *)
Theorem pack_header_intact (s : statics) (jsonString : list byte) :
  length header = 36%nat /\
  match pack s jsonString with
  | Some s' => take 36 (beaconFrame s') = header
  | None => 32640 <= Z.of_nat (length jsonString)
  end.
Proof.
  split; [reflexivity|]. unfold pack.
  destruct (Z_lt_dec (Z.of_nat (length jsonString)) 32640) as [HL|HL].
  - destruct (pack_run_chunks s jsonString HL) as (r & -> & _ & _ & _ & _ & _ & Hh).
    exact Hh.
  - rewrite pack_run_large by lia. cbn. lia.
Qed.

(** What one iteration does to [payloadSize]. *)
Lemma pack_body_payloadSize (jsonString : list byte) (i : nat) (cur : Z)
    (s : statics) (r : Z * statics) :
  pack_body jsonString i (cur, s) = Some r ->
  payloadSize (snd r) =
    (if (Z.of_nat i mod 255 =? 0) && (essidLength s - Z.of_nat i <? chunkSize)
     then essidLength s - Z.of_nat i
     else payloadSize s)
  /\ essidLength (snd r) = essidLength s.
Proof.
  destruct s as [p b L hl]. unfold pack_body, pack_boundary.
  cbn [essidLength payloadSize beaconFrame].
  assert (Hz : (Z.of_nat i =? 0) || (Z.of_nat i mod 255 =? 0) = (Z.of_nat i mod 255 =? 0)).
  { by destruct (Z.eqb_spec (Z.of_nat i) 0) as [->|]. }
  rewrite Hz. destruct (Z.of_nat i mod 255 =? 0); cbn [andb].
  - destruct (vec_store b cur IDWhisperPayload) as [b1|]; [|done].
    cbn [mbind option_bind set_beaconFrame essidLength payloadSize beaconFrame
         headerLength].
    destruct (L - Z.of_nat i <? chunkSize);
      cbn [set_payloadSize set_beaconFrame essidLength payloadSize beaconFrame
           headerLength];
      (match goal with |- context [vec_store ?v (?c + 1) ?x] =>
         destruct (vec_store v (c + 1) x) as [b2|] end; [|done]);
      cbn [mbind option_bind set_beaconFrame essidLength payloadSize beaconFrame
           headerLength];
      (match goal with |- context [vec_store ?v (?c + 2) ?x] =>
         destruct (vec_store v (c + 2) x) as [b3|] end; [|done]);
      cbn [mbind option_bind]; intros [= <-]; done.
  - cbn [mbind option_bind beaconFrame].
    destruct (vec_store b cur _) as [b1|]; [|done].
    cbn [mbind option_bind]. intros [= <-]. done.
Qed.

(** C7.  An iteration of the loop assigns [payloadSize] only at a chunk
    boundary and only when fewer than 255 bytes remain, and then to that
    remainder; so a call leaves [payloadSize] at [L mod 255] when that is
    not zero and as it found it otherwise, and the next call writes the
    value it finds into the length byte of each of its full chunks. *)
Theorem payloadSize_persists :
  (forall jsonString i cur s r,
     pack_body jsonString i (cur, s) = Some r ->
     payloadSize (snd r) =
       (if (Z.of_nat i mod 255 =? 0) && (essidLength s - Z.of_nat i <? chunkSize)
        then essidLength s - Z.of_nat i
        else payloadSize s)) /\
  (forall s jsonString,
     Z.of_nat (length jsonString) < 32640 ->
     exists s',
       pack s jsonString = Some s' /\
       payloadSize s' =
         (if Z.of_nat (length jsonString) mod 255 =? 0
          then payloadSize s
          else Z.of_nat (length jsonString) mod 255) /\
       forall next,
         Z.of_nat (length next) < 32640 ->
         exists r cs,
           pack_run s' next = Some r /\
           slices (region r) = Some cs /\
           len_byte <$> cs =
             replicate (Z.to_nat (Z.of_nat (length next) / 255))
                       (uint8_t (payloadSize s'))
               ++ (if Z.of_nat (length next) mod 255 =? 0
                   then [] else [Z.of_nat (length next) mod 255])).
Proof.
  split.
  - intros jsonString i cur s r Hr.
    by destruct (pack_body_payloadSize jsonString i cur s r Hr).
  - intros s jsonString HL.
    destruct (pack_run_chunks s jsonString HL) as (r & Hr & _ & _ & _ & Hp & _).
    exists (snd r). unfold pack. rewrite Hr. split; [done|]. split; [exact Hp|].
    intros next Hnext. apply pack_length_bytes. exact Hnext.
Qed.

Lemma payloadSize_persists_witness :
  exists r0,
    pack_body (letters 10) 0 (36, {| payloadSize := 255; beaconFrame := replicate 60 0;
                                     essidLength := 10; headerLength := 0 |}) = Some r0 /\
    payloadSize (snd r0) = 10 /\
    Z.of_nat (length (letters 10)) < 32640 /\
    Z.of_nat (length (letters 255)) < 32640 /\
    exists s',
      pack init (letters 10) = Some s' /\ payloadSize s' = 10 /\
      exists r cs,
        pack_run s' (letters 255) = Some r /\
        slices (region r) = Some cs /\
        len_byte <$> cs = [10].
Proof.
  eexists. split; [reflexivity|].
  split.
  { exact (proj1 payloadSize_persists (letters 10) 0%nat 36
             {| payloadSize := 255; beaconFrame := replicate 60 0;
                essidLength := 10; headerLength := 0 |}
             _ eq_refl). }
  split; [reflexivity|]. split; [reflexivity|].
  destruct (proj2 payloadSize_persists init (letters 10) eq_refl)
    as (s' & Hs' & Hp & Hnext).
  exists s'. split; [exact Hs'|]. split; [exact Hp|].
  destruct (Hnext (letters 255) eq_refl) as (r & cs & Hr & Hcs & Hlb).
  exists r, cs. split; [exact Hr|]. split; [exact Hcs|].
  rewrite Hlb, Hp. reflexivity.
Defined.

(** C10.  A store into the vector is defined exactly for an index inside
    it, and for a document of fewer than 32640 bytes, where the [uint8_t]
    estimate [2 * (L / 255)] has not wrapped, every store of [pack] is
    defined: the call completes, the buffer has the resized length
    [36 + L + headerLength + 255], and the cursor, one past the last store,
    has not left it. *)
Theorem pack_stores_in_bounds (s : statics) (jsonString : list byte) :
  let L := Z.of_nat (length jsonString) in
  L < 32640 ->
  (forall v idx x, is_Some (vec_store v idx x) <-> 0 <= idx < Z.of_nat (length v)) /\
  exists r,
    pack_run s jsonString = Some r /\
    headerLength (snd r) = 2 * (L / 255) /\
    Z.of_nat (length (beaconFrame (snd r)))
      = pwngridHeaderLength + L + headerLength (snd r) + chunkSize /\
    fst r = pwngridHeaderLength + L + 2 * ((L + 254) / 255) /\
    pwngridHeaderLength <= fst r <= Z.of_nat (length (beaconFrame (snd r))).
Proof.
  intros L HL. split.
  { intros v idx x. unfold vec_store.
    case_bool_decide as Hin; split; intros H'; [exact Hin|by eexists|by destruct H'|done]. }
  destruct (pack_run_chunks s jsonString HL) as (r & Hr & _ & _ & Hcur & _ & Hlen & _).
  destruct (pack_run_statics s jsonString r HL Hr) as [Hhl _].
  pose proof (slice_count_bounds jsonString) as Hsc.
  cbv zeta in Hsc, Hcur, Hlen, Hhl. fold L in Hhl, Hsc, Hcur, Hlen.
  exists r. split; [done|]. split; [exact Hhl|]. rewrite Hhl.
  split; [exact Hlen|]. unfold slice_count, chunkSize in *.
  change (255 - 1) with 254 in *.
  split; [lia|]. assert (0 <= L) by (unfold L; lia).
  pose proof (Z.div_pos (L + 254) 255). lia.
Qed.

Lemma pack_stores_in_bounds_witness :
  Z.of_nat (length (letters 2048)) < 32640 /\
  exists r,
    pack_run init (letters 2048) = Some r /\
    headerLength (snd r) = 16 /\
    Z.of_nat (length (beaconFrame (snd r))) = 36 + 2048 + headerLength (snd r) + 255 /\
    fst r = 36 + 2048 + 2 * 9 /\
    36 <= fst r <= Z.of_nat (length (beaconFrame (snd r))).
Proof.
  split; [reflexivity|].
  exact (proj2 (pack_stores_in_bounds init (letters 2048) eq_refl)).
Defined.

End PackClaims.

(** * The claims about [send] and [advertise] *)

Section SendClaims.
Import Frame Layout Chunks Radio Samples.

(** [send] for a document below 32640 bytes: one delay, one transmission
    of the whole vector. *)
Lemma send_small (e : env) (w : world) :
  let jsonString := serialized e (n_pack w) in
  Z.of_nat (length jsonString) < 32640 ->
  exists r,
    pack_run (frame w) jsonString = Some r /\
    send e w =
      Some (tx_ok e (n_tx w),
            {| frame := snd r;
               trace := trace w ++
                 [EvDelay 102;
                  EvTx (beaconFrame (snd r)) (Z.of_nat (length (beaconFrame (snd r))))];
               n_pack := S (n_pack w); n_tx := S (n_tx w);
               n_millis := n_millis w |}).
Proof.
  intros jsonString HL.
  destruct (pack_run_chunks (frame w) jsonString HL) as (r & Hr & _ & _ & _ & _ & Hlen & _).
  exists r. split; [done|].
  unfold send, pack_call, pack. fold jsonString. rewrite Hr.
  cbn [fmap option_fmap option_map mbind option_bind].
  unfold esp_wifi_80211_tx, delay, emit_event. cbn [frame trace n_pack n_tx n_millis].
  rewrite <- app_assoc. cbn [app].
  unfold size_t. rewrite Hlen. rewrite Z.mod_small; [done|].
  fold jsonString. assert (0 <= Z.of_nat (length jsonString) / 255 < 128).
  { split; [apply Z.div_pos; lia|apply Z.div_lt_upper_bound; lia]. }
  unfold pwngridHeaderLength, chunkSize. cbn [length header].
  change (2 ^ 32) with 4294967296. lia.
Qed.

(** C3, as the code has it.  [send] hands the whole resized vector to the
    transmit primitive, with its size as the length: for a document of
    [L < 32640] bytes that is [36 + L + 2 * (L / 255) + 255] bytes, at
    least 253 more than the write cursor [36 + L + 2 * ceil(L / 255)]
    reached by [pack]; nothing truncates the vector in between. *)
Theorem send_transmits_whole_vector (e : env) (w : world) :
  let jsonString := serialized e (n_pack w) in
  let L := Z.of_nat (length jsonString) in
  L < 32640 ->
  exists ok w' r len,
    pack_run (frame w) jsonString = Some r /\
    send e w = Some (ok, w') /\
    trace w' = trace w ++ [EvDelay 102; EvTx (beaconFrame (snd r)) len] /\
    len = Z.of_nat (length (beaconFrame (snd r))) /\
    len = pwngridHeaderLength + L + 2 * (L / 255) + chunkSize /\
    fst r = pwngridHeaderLength + L + 2 * ((L + 254) / 255) /\
    fst r + 253 <= len.
Proof.
  intros jsonString L HL.
  destruct (send_small e w HL) as (r & Hr & Hsend).
  destruct (pack_run_chunks (frame w) jsonString HL)
    as (r' & Hr' & _ & _ & Hcur & _ & Hlen & _).
  pose proof (eq_trans (eq_sym Hr) Hr') as E. injection E as <-.
  eexists _, _, r, _. split; [exact Hr|]. split; [exact Hsend|].
  cbn [trace]. split; [done|]. split; [done|].
  pose proof (slice_count_bounds jsonString) as Hsc.
  cbv zeta in Hsc, Hcur, Hlen. fold jsonString in Hsc, Hcur, Hlen. fold L in Hsc, Hcur, Hlen.
  unfold slice_count, chunkSize in *. change (255 - 1) with 254 in *.
  split; [lia|]. split; lia.
Qed.

Lemma send_transmits_whole_vector_witness :
  Z.of_nat (length (serialized (collaborators true braces (fun _ => 0)) (n_pack boot)))
    < 32640 /\
  exists ok w' r len,
    pack_run (frame boot) braces = Some r /\
    send (collaborators true braces (fun _ => 0)) boot = Some (ok, w') /\
    trace w' = [EvDelay 102; EvTx (beaconFrame (snd r)) len] /\
    len = Z.of_nat (length (beaconFrame (snd r))) /\
    len = 293 /\
    fst r = 40 /\
    fst r + 253 <= len.
Proof.
  split; [reflexivity|].
  exact (send_transmits_whole_vector (collaborators true braces (fun _ => 0)) boot eq_refl).
Defined.

(** C3 as stated fails: for the two-byte document ["{}"] the claimed
    length is [36 + 2 + 2 * 1 = 40], and [send] transmits 293 bytes. *)
Lemma send_does_not_truncate :
  ~ (exists ok w' buffer,
       send (collaborators true braces (fun _ => 0)) boot = Some (ok, w') /\
       last (trace w') = Some (EvTx buffer (pwngridHeaderLength + 2 + 2 * 1))).
Proof.
  intros (ok & w' & buffer & Hs & Hl).
  vm_compute in Hs. injection Hs as <- <-.
  vm_compute in Hl. discriminate.
Qed.

(** C8.  With the advertise flag off, [advertise] only reads the clock:
    it returns with the trace, the frame state and the count of
    transmissions as it found them, so no transmission is made. *)
Theorem advertise_disabled_sends_nothing (e : env) (w : world) :
  Config_advertise e = false ->
  exists w',
    advertise e w = Some w' /\
    trace w' = trace w /\
    n_tx w' = n_tx w /\
    n_pack w' = n_pack w /\
    frame w' = frame w /\
    filter (fun ev => is_tx ev = true) (trace w') = filter (fun ev => is_tx ev = true) (trace w).
Proof.
  intros Hflag. unfold advertise, millis. rewrite Hflag.
  eexists. split; [reflexivity|]. done.
Qed.

Lemma advertise_disabled_sends_nothing_witness :
  Config_advertise (collaborators false braces (fun _ => 0)) = false /\
  exists w',
    advertise (collaborators false braces (fun _ => 0)) boot = Some w' /\
    trace w' = [] /\ n_tx w' = 0%nat /\ n_pack w' = 0%nat /\ frame w' = init /\
    filter (fun ev => is_tx ev = true) (trace w') = [].
Proof.
  split; [reflexivity|].
  exact (advertise_disabled_sends_nothing (collaborators false braces (fun _ => 0)) boot eq_refl).
Defined.

End SendClaims.

(** ** binary32: where NaN cannot come from *)

Section NoNaN.
Variables prec emax : Z.

Lemma shr_1_nonneg mrs : 0 <= shr_m mrs -> 0 <= shr_m (shr_1 mrs).
Proof.
  destruct mrs as [m r s]. cbn [shr_m]. intros Hm.
  destruct m as [|[q|q|]|q]; cbn; lia.
Qed.

Lemma iter_shr_1_nonneg n : forall mrs,
  0 <= shr_m mrs -> 0 <= shr_m (SpecFloat.iter_pos shr_1 n mrs).
Proof.
  induction n as [n IH|n IH|]; intros mrs Hm; cbn [SpecFloat.iter_pos].
  - apply IH, IH, shr_1_nonneg, Hm.
  - apply IH, IH, Hm.
  - apply shr_1_nonneg, Hm.
Qed.

Lemma shr_fexp_nonneg m ex l :
  0 <= m -> 0 <= shr_m (fst (shr_fexp prec emax m ex l)).
Proof.
  intros Hm. unfold shr_fexp, shr.
  assert (0 <= shr_m (shr_record_of_loc m l)) as H0.
  { destruct l as [|[]]; exact Hm. }
  destruct (fexp prec emax (Zdigits2 m + ex) - ex); cbn [fst]; try exact H0.
  apply iter_shr_1_nonneg, H0.
Qed.

Lemma round_nearest_even_nonneg m l : 0 <= m -> 0 <= round_nearest_even m l.
Proof.
  intros Hm. unfold round_nearest_even.
  destruct l as [|[]]; try lia. destruct (Z.even m); lia.
Qed.

(** Rounding a non-negative mantissa gives a zero, a finite number or an
    infinity. *)
Lemma binary_round_aux_not_nan sx mx ex lx :
  0 <= mx -> binary_round_aux prec emax sx mx ex lx <> S754_nan.
Proof.
  intros Hm. unfold binary_round_aux.
  pose proof (shr_fexp_nonneg mx ex lx Hm) as H1.
  destruct (shr_fexp prec emax mx ex lx) as [mrs' e']. cbn [fst] in H1.
  pose proof (shr_fexp_nonneg _ e' loc_Exact
                (round_nearest_even_nonneg _ (loc_of_shr_record mrs') H1)) as H2.
  destruct (shr_fexp prec emax _ e' loc_Exact) as [mrs'' e'']. cbn [fst] in H2.
  destruct (shr_m mrs'') as [|q|q]; [discriminate| |lia].
  destruct (e'' <=? emax - prec); discriminate.
Qed.

End NoNaN.

Section Float32Facts.
Import Float32 Radio.

Lemma of_Z_not_nan n : of_Z n <> S754_nan.
Proof.
  unfold of_Z, binary_normalize. destruct n as [|q|q]; [discriminate| |].
  all: unfold binary_round; destruct (shl_align _ _ _) as [mz ez];
    apply binary_round_aux_not_nan; lia.
Qed.

Lemma div_not_nan s m e y :
  y <> S754_nan -> div (S754_finite s m e) y <> S754_nan.
Proof.
  intros Hy. unfold div, SFdiv.
  destruct y as [sy|sy| |sy my ey]; try discriminate; [congruence|].
  destruct (SFdiv_core_binary _ _ _ _ _ _) as [[mz ez] lz] eqn:E.
  apply binary_round_aux_not_nan.
  unfold SFdiv_core_binary in E.
  match type of E with context [Z.div_eucl ?a ?b] =>
    pose proof (Z_div_mod a b eq_refl) as Hd;
    assert (0 <= a) as Ha; [|destruct (Z.div_eucl a b) as [q r]] end.
  { destruct (_ - _ - _); try lia. apply Z.shiftl_nonneg. lia. }
  injection E as <- _ _. destruct Hd as [Hd Hr]. nia.
Qed.

Lemma mul_not_nan x s m e :
  x <> S754_nan -> mul x (S754_finite s m e) <> S754_nan.
Proof.
  intros Hx. unfold mul, SFmul.
  destruct x as [sx|sx| |sx mx ex]; try discriminate; [congruence|].
  apply binary_round_aux_not_nan. lia.
Qed.

(** The counts the loop can reach convert to positive finite floats. *)
Lemma of_Z_packets packets :
  1 <= packets <= 150 -> exists m e, of_Z packets = S754_finite false m e.
Proof.
  intros Hp.
  assert (forallb (fun n => match of_Z (Z.of_nat n) with
                            | S754_finite false _ _ => true
                            | _ => false
                            end) (seq 1 150) = true) as Hall by (vm_compute; reflexivity).
  rewrite forallb_forall in Hall.
  specialize (Hall (Z.to_nat packets)). rewrite Z2Nat.id in Hall by lia.
  destruct (of_Z packets) as [| | |[] m e]; try (discriminate Hall; apply in_seq; lia).
  by exists m, e.
Qed.

(** No elapsed time: the quotient is an infinity. *)
Lemma pps_of_zero_elapsed packets now startTime :
  1 <= packets <= 150 ->
  (now - startTime) mod 2 ^ 32 = 0 ->
  pps_of packets now startTime = S754_infinity false.
Proof.
  intros Hp H0. unfold pps_of. rewrite H0.
  destruct (of_Z_packets packets Hp) as (m & e & ->). reflexivity.
Qed.

Lemma pps_of_not_nan packets now startTime :
  1 <= packets <= 150 -> pps_of packets now startTime <> S754_nan.
Proof.
  intros Hp. unfold pps_of.
  destruct (of_Z_packets packets Hp) as (m & e & ->).
  change (of_Z 1000) with (S754_finite false 16384000 (-14)).
  apply mul_not_nan, div_not_nan, of_Z_not_nan.
Qed.

(** A rate that passes the [isinf] test is a finite number. *)
Lemma pps_of_reported_finite packets now startTime :
  1 <= packets <= 150 ->
  isinf (pps_of packets now startTime) = false ->
  is_finite (pps_of packets now startTime) = true.
Proof.
  intros Hp Hinf. unfold is_finite. rewrite Hinf.
  pose proof (pps_of_not_nan packets now startTime Hp) as Hn.
  destruct (pps_of packets now startTime); try reflexivity. congruence.
Qed.

End Float32Facts.

(** ** The loop of [advertise] *)

Section AdvertiseLoop.
Import Frame Radio Samples.

Lemma for_loop_invariant {A} (body : nat -> A -> option A) (I : nat -> A -> Prop) n :
  forall from a,
    (forall i x, (from <= i < from + n)%nat -> I i x ->
                 exists x', body i x = Some x' /\ I (S i) x') ->
    I from a ->
    exists a', for_loop body from n a = Some a' /\ I (from + n)%nat a'.
Proof.
  induction n as [|n IH]; intros from a Hstep Ha; cbn [for_loop].
  - exists a. by rewrite Nat.add_0_r.
  - destruct (Hstep from a) as (a1 & -> & Ha1); [lia|done|].
    cbn [mbind option_bind].
    destruct (IH (S from) a1) as (a' & Hl & Ha'); [|done|].
    + intros i x Hi. apply Hstep. lia.
    + exists a'. split; [done|]. by replace (from + S n)%nat with (S from + n)%nat by lia.
Qed.

Lemma reported_rate_report (pps : spec_float) (w : world) :
  exists new, trace (rate_report pps w) = trace w ++ new /\
              flat_map reported new = [pps; pps].
Proof.
  eexists. unfold rate_report, emit_event. cbn [trace].
  rewrite <- !app_assoc. split; [reflexivity|]. reflexivity.
Qed.

(** Three packets in a second and a half: two packets per second. *)
Example pps_of_three_in_1500ms : pps_of 3 1500 0 = S754_finite false (2 ^ 23) (-22).
Proof. reflexivity. Qed.

End AdvertiseLoop.

(** * Further properties of [pack] *)

Section PackMore.
Import Frame Layout Chunks Samples Observe.

(** X1.  [pack] completes exactly for documents below 32640 bytes: from there
    on the [uint8_t] estimate has wrapped, the vector is too short, and a
    store of the loop lands past its end. *)
Theorem pack_completes_iff_below_32640 (s : statics) (jsonString : list byte) :
  (Z.of_nat (length jsonString) < 32640 -> is_Some (pack s jsonString)) /\
  (32640 <= Z.of_nat (length jsonString) -> pack s jsonString = None).
Proof.
  split; intros HL; unfold pack.
  - destruct (pack_run_chunks s jsonString HL) as (r & -> & _). by eexists.
  - by rewrite pack_run_large.
Qed.

Lemma pack_completes_iff_below_32640_witness :
  Z.of_nat (length (letters 300)) < 32640 /\
  32640 <= Z.of_nat (length (letters (Z.to_nat 32640))) /\
  is_Some (pack init (letters 300)) /\
  pack init (letters (Z.to_nat 32640)) = None.
Proof.
  assert (Z.of_nat (length (letters 300)) < 32640) as H1 by reflexivity.
  assert (32640 <= Z.of_nat (length (letters (Z.to_nat 32640)))) as H2.
  { unfold letters. rewrite length_replicate, Z2Nat.id; lia. }
  split; [exact H1|]. split; [exact H2|].
  split.
  - exact (proj1 (pack_completes_iff_below_32640 init (letters 300)) H1).
  - exact (proj2 (pack_completes_iff_below_32640 init (letters (Z.to_nat 32640))) H2).
Defined.

(** The explicit result of [pack] below 32640 bytes, sizes simplified. *)
Lemma pack_run_explicit (s : statics) (jsonString : list byte) :
  let L := Z.of_nat (length jsonString) in
  let W := concat (encode <$> laid_out (payloadSize s) jsonString) in
  let capacity := pwngridHeaderLength + L + 2 * (L / 255) + chunkSize in
  L < 32640 ->
  pack_run s jsonString =
    Some (pwngridHeaderLength + Z.of_nat (length W),
          {| payloadSize := if L mod 255 =? 0 then payloadSize s else L mod 255;
             beaconFrame :=
               header ++ W ++
               drop (length header + length W) (vec_resize (beaconFrame s) capacity);
             essidLength := L; headerLength := 2 * (L / 255) |})
  /\ Z.of_nat (length W) = L + 2 * slice_count L
  /\ pwngridHeaderLength + Z.of_nat (length W) <= capacity.
Proof.
  intros L W capacity HL.
  pose proof (pack_run_small s jsonString HL) as Hr.
  destruct (capacity_small jsonString HL) as [Hhl Hcap].
  pose proof (written_length s jsonString) as HW.
  pose proof (slice_count_bounds jsonString) as Hsc.
  cbv zeta in Hsc. fold L in Hr, Hhl, Hcap, HW, Hsc. fold W in Hr, HW.
  rewrite Hcap, Hhl in Hr. split; [exact Hr|]. split; [exact HW|].
  unfold capacity, chunkSize. lia.
Qed.

(** X2.  [pack] never clears the vector: past the write cursor every byte is
    what the resized old vector held there, so bytes of an earlier, longer
    frame stay in the buffer; on the initial, empty vector they are zero. *)
Theorem pack_leaves_slack_untouched (s : statics) (jsonString : list byte) :
  let L := Z.of_nat (length jsonString) in
  L < 32640 ->
  exists r,
    pack_run s jsonString = Some r /\
    fst r = pwngridHeaderLength + L + 2 * ((L + 254) / 255) /\
    (forall k, (Z.to_nat (fst r) <= k)%nat ->
       beaconFrame (snd r) !! k =
       vec_resize (beaconFrame s) (pwngridHeaderLength + L + 2 * (L / 255) + chunkSize) !! k) /\
    (beaconFrame s = [] ->
       Forall (fun b => b = 0) (drop (Z.to_nat (fst r)) (beaconFrame (snd r)))).
Proof.
  intros L HL. destruct (pack_run_explicit s jsonString HL) as (Hr & HW & Hfit).
  cbv zeta in Hr, HW, Hfit. fold L in Hr, HW, Hfit.
  eexists. split; [exact Hr|]. cbn [fst snd beaconFrame].
  split; [rewrite HW; unfold slice_count, chunkSize; change (255 - 1) with 254; lia|].
  set (W := concat (encode <$> laid_out (payloadSize s) jsonString)) in *.
  set (old := vec_resize (beaconFrame s) _) in *.
  assert (Z.to_nat (pwngridHeaderLength + Z.of_nat (length W))
          = (length header + length W)%nat) as Hcur
    by (unfold pwngridHeaderLength; lia).
  rewrite Hcur.
  assert (forall k, (length header + length W <= k)%nat ->
            (header ++ W ++ drop (length header + length W) old) !! k = old !! k) as Hk.
  { intros k Hle. rewrite app_assoc, lookup_app_r by (rewrite length_app; lia).
    rewrite lookup_drop, length_app. f_equal. lia. }
  split; [exact Hk|].
  intros Hempty. apply Forall_lookup. intros k b Hb.
  rewrite lookup_drop, Hk in Hb by lia.
  unfold old, vec_resize in Hb. rewrite Hempty, resize_nil in Hb.
  by apply lookup_replicate in Hb as [-> _].
Qed.

Lemma pack_leaves_slack_untouched_witness :
  Z.of_nat (length (letters 10)) < 32640 /\
  exists r,
    pack_run {| payloadSize := 45; beaconFrame := replicate 400 97;
                essidLength := 300; headerLength := 2 |} (letters 10) = Some r /\
    fst r = 48 /\
    beaconFrame (snd r) !! 100%nat = Some 97.
Proof.
  split; [reflexivity|].
  destruct (pack_leaves_slack_untouched
              {| payloadSize := 45; beaconFrame := replicate 400 97;
                 essidLength := 300; headerLength := 2 |} (letters 10) eq_refl)
    as (r & Hr & Hcur & Hk & _).
  exists r. split; [exact Hr|]. split; [exact Hcur|].
  rewrite (Hk 100%nat); [reflexivity|]. rewrite Hcur. vm_compute. lia.
Defined.

Lemma for_loop_ext {A} (f g : nat -> A -> option A) n : forall from a,
  (forall i x, f i x = g i x) -> for_loop f from n a = for_loop g from n a.
Proof.
  induction n as [|n IH]; intros from a Hfg; cbn [for_loop]; [done|].
  rewrite Hfg. destruct (g from a) as [a'|]; cbn [mbind option_bind]; [|done].
  by apply IH.
Qed.

Lemma char_at_sanitize (jsonString : list byte) (i : nat) :
  char_at (sanitize <$> jsonString) i = sanitize (char_at jsonString i).
Proof.
  unfold char_at. rewrite list_lookup_fmap.
  by destruct (jsonString !! i).
Qed.

Lemma nextByte_sanitize (c : byte) : nextByte (sanitize c) = nextByte c.
Proof. destruct c; reflexivity. Qed.

(** X3.  [pack] sees the document only through its ASCII reading: replacing
    every byte of 128 and above by ['?'] beforehand changes nothing, be it
    the buffer, the statics or the failure for an oversized document. *)
Theorem pack_sees_sanitized_document (s : statics) (jsonString : list byte) :
  pack_run s (sanitize <$> jsonString) = pack_run s jsonString /\
  sanitize <$> (sanitize <$> jsonString) = sanitize <$> jsonString.
Proof.
  split.
  - unfold pack_run. rewrite length_fmap.
    destruct (memcpy _ header) as [b|]; cbn [mbind option_bind]; [|done].
    apply for_loop_ext. intros i [cur st]. unfold pack_body.
    by rewrite char_at_sanitize, nextByte_sanitize.
  - rewrite <- list_fmap_compose. apply list_fmap_ext.
    intros _ c _. cbn. by destruct c.
Qed.

(** X4.  A document of 1 to 254 bytes is framed the same whatever [payloadSize]
    was left behind: one chunk whose length byte is the document length,
    which a receiver reads back as such. *)
Theorem pack_short_document (s : statics) (jsonString : list byte) :
  let L := Z.of_nat (length jsonString) in
  0 < L < 255 ->
  exists r,
    pack_run s jsonString = Some r /\
    region r = IDWhisperPayload :: L :: (nextByte <$> jsonString) /\
    tlv (region r) =
      Some [ {| marker := IDWhisperPayload; len_byte := L;
                data := nextByte <$> jsonString |} ] /\
    payloadSize (snd r) = L.
Proof.
  intros L HL.
  destruct (pack_run_chunks s jsonString) as (r & Hr & Hreg & _ & _ & Hp & _);
    [fold L; lia|].
  cbv zeta in Hp. fold L in Hp.
  assert (laid_out (payloadSize s) jsonString =
          [ {| marker := IDWhisperPayload; len_byte := L;
               data := nextByte <$> jsonString |} ]) as Hlo.
  { unfold laid_out. fold L. rewrite slice_count_last by lia.
    change (Z.to_nat 1) with 1%nat. cbn [seq fmap list_fmap].
    destruct (nth_chunk_short (payloadSize s) jsonString 0) as (-> & Hmod & _);
      [unfold L in HL; lia|].
    fold L in Hmod |- *. rewrite Z.mod_small by lia. by rewrite drop_0. }
  exists r. split; [exact Hr|]. rewrite Hreg, Hlo.
  split; [cbn; by rewrite app_nil_r|].
  split.
  - apply (tlv_encode [_]). apply Forall_singleton. cbn [len_byte data].
    by rewrite length_fmap.
  - rewrite Hp, Z.mod_small by lia.
    destruct (Z.eqb_spec L 0); [lia|done].
Qed.

Lemma pack_short_document_witness :
  0 < Z.of_nat (length braces) < 255 /\
  exists r,
    pack_run {| payloadSize := 45; beaconFrame := replicate 400 97;
                essidLength := 300; headerLength := 2 |} braces = Some r /\
    region r = [0xDE; 2; 0x7B; 0x7D] /\
    tlv (region r) =
      Some [ {| marker := 0xDE; len_byte := 2; data := [0x7B; 0x7D] |} ] /\
    payloadSize (snd r) = 2.
Proof.
  split; [split; reflexivity|].
  exact (pack_short_document
           {| payloadSize := 45; beaconFrame := replicate 400 97;
              essidLength := 300; headerLength := 2 |} braces
           (conj eq_refl eq_refl)).
Defined.

Lemma laid_out_encoding_length (p q : Z) (jsonString : list byte) :
  length (concat (encode <$> laid_out p jsonString))
  = length (concat (encode <$> laid_out q jsonString)).
Proof.
  rewrite !encode_length, !laid_out_data.
  pose proof (laid_out_length p jsonString).
  pose proof (laid_out_length q jsonString). lia.
Qed.

Lemma pack_three_times (s : statics) (jsonString : list byte) :
  Z.of_nat (length jsonString) < 32640 ->
  exists s1 s2,
    pack s jsonString = Some s1 /\
    pack s1 jsonString = Some s2 /\
    pack s2 jsonString = Some s2 /\
    payloadSize s2 = payloadSize s1 /\
    length (beaconFrame s2) = length (beaconFrame s1).
Proof.
  intros HL.
  set (L := Z.of_nat (length jsonString)) in *.
  set (cap := pwngridHeaderLength + L + 2 * (L / 255) + chunkSize).
  set (W := fun p => concat (encode <$> laid_out p jsonString)).
  set (next := fun p => if L mod 255 =? 0 then p else L mod 255).
  assert (forall st, pack st jsonString =
            Some {| payloadSize := next (payloadSize st);
                    beaconFrame := header ++ W (payloadSize st) ++
                      drop (length header + length (W (payloadSize st)))
                           (vec_resize (beaconFrame st) cap);
                    essidLength := L; headerLength := 2 * (L / 255) |}) as Hpack.
  { intros st. unfold pack.
    destruct (pack_run_explicit st jsonString HL) as (-> & _). reflexivity. }
  assert (forall p, Z.of_nat (length header + length (W p)) <= cap) as Hfit.
  { intros p.
    destruct (pack_run_explicit (mkStatics p [] 0 0) jsonString HL) as (_ & _ & Hf).
    cbv zeta in Hf. cbn [payloadSize] in Hf. fold L in Hf. fold cap in Hf.
    unfold pwngridHeaderLength in *. unfold W. lia. }
  assert (0 <= cap) as Hcap0 by (specialize (Hfit 0); lia).
  assert (forall p b, length (header ++ W p ++ drop (length header + length (W p))
                                (vec_resize b cap)) = Z.to_nat cap) as Hlen.
  { intros p b. rewrite !length_app, length_drop. unfold vec_resize.
    rewrite length_resize. specialize (Hfit p). lia. }
  assert (forall p q b, vec_resize (header ++ W p ++ drop (length header + length (W p))
                                       (vec_resize b cap)) cap
                        = header ++ W p ++ drop (length header + length (W q))
                                       (vec_resize b cap)) as Hres.
  { intros p q b. unfold vec_resize at 1. rewrite <- (Hlen p b) at 1.
    rewrite resize_all. do 3 f_equal. unfold W. f_equal. apply laid_out_encoding_length. }
  assert (forall p q b, drop (length header + length (W q))
                          (header ++ W p ++ b) = b) as Hdrop.
  { intros p q b. rewrite app_assoc.
    replace (length header + length (W q))%nat with (length (header ++ W p)).
    - apply drop_app_length.
    - rewrite length_app. f_equal. apply laid_out_encoding_length. }
  assert (forall p, next (next p) = next p) as Hnn.
  { intros p. unfold next. by destruct (L mod 255 =? 0). }
  eexists _, _. split; [apply Hpack|]. split; [apply Hpack|].
  cbn [payloadSize beaconFrame]. rewrite Hpack. cbn [payloadSize beaconFrame].
  rewrite !Hnn.
  set (p0 := payloadSize s). set (p1 := next p0).
  rewrite (Hres p0 p1), (Hdrop p0 p1).
  rewrite (Hres p1 p1), (Hdrop p1 p1).
  split; [reflexivity|]. split; [reflexivity|].
  rewrite !length_app, !length_drop. f_equal. f_equal; [apply laid_out_encoding_length|].
  f_equal. f_equal. apply laid_out_encoding_length.
Qed.

(** X5.  Packing the same document again and again settles after one call:
    the second call may still change the buffer (it writes the
    [payloadSize] the first call left), every later call reproduces the
    statics and the buffer of the second byte for byte. *)
Theorem pack_repeated_settles (s : statics) (jsonString : list byte) :
  Z.of_nat (length jsonString) < 32640 ->
  exists s1 s2,
    pack s jsonString = Some s1 /\
    pack s1 jsonString = Some s2 /\
    pack s2 jsonString = Some s2 /\
    payloadSize s2 = payloadSize s1 /\
    length (beaconFrame s2) = length (beaconFrame s1).
Proof. apply pack_three_times. Qed.

Lemma pack_repeated_settles_witness :
  Z.of_nat (length (letters 300)) < 32640 /\
  exists s1 s2,
    pack init (letters 300) = Some s1 /\
    pack s1 (letters 300) = Some s2 /\
    pack s2 (letters 300) = Some s2 /\
    payloadSize s2 = payloadSize s1 /\
    length (beaconFrame s2) = length (beaconFrame s1).
Proof.
  split; [reflexivity|].
  exact (pack_repeated_settles init (letters 300) eq_refl).
Defined.

(** A reader that follows the length bytes gives the first chunk as many
    data bytes as its length byte says. *)
Lemma read_tlv_first (fuel : nat) (m l : Z) (rest : list Z) (c : chunk) (cs : list chunk) :
  read_tlv fuel (m :: l :: rest) = Some (c :: cs) ->
  len_byte c = l /\ Z.of_nat (length (data c)) = l.
Proof.
  destruct fuel as [|fuel]; cbn [read_tlv]; [done|].
  case_bool_decide as Hl; [|done].
  destruct (read_tlv fuel _) as [cs'|]; cbn [mbind option_bind]; [|done].
  intros [= <- _]. cbn [len_byte data]. split; [done|].
  rewrite length_take. lia.
Qed.

(** X6.  Once [payloadSize] is below 255, a document of 255 bytes or more gets
    that stale value as the length byte of its first chunk, which carries
    255 data bytes, and [pack] leaves [payloadSize] below 255 again: no
    later call repairs it. *)
Theorem pack_stale_payloadSize_stays (s : statics) (jsonString : list byte) :
  let L := Z.of_nat (length jsonString) in
  0 <= payloadSize s < 255 ->
  255 <= L < 32640 ->
  exists r c cs,
    pack_run s jsonString = Some r /\
    slices (region r) = Some (c :: cs) /\
    len_byte c = payloadSize s /\
    length (data c) = 255%nat /\
    tlv (region r) ≠ Some (c :: cs) /\
    0 <= payloadSize (snd r) < 255.
Proof.
  intros L Hp HL.
  destruct (pack_run_chunks s jsonString) as (r & Hr & Hreg & Hsl & _ & Hp' & _);
    [fold L; lia|].
  cbv zeta in Hp'. fold L in Hp'.
  assert (exists n, Z.to_nat (slice_count L) = S n) as [n Hn].
  { pose proof (slice_count_pos L). exists (Z.to_nat (slice_count L) - 1)%nat. lia. }
  destruct (nth_chunk_full (payloadSize s) jsonString 0) as [Hc Hlen];
    [unfold L in HL; lia|].
  assert (laid_out (payloadSize s) jsonString =
          nth_chunk (payloadSize s) jsonString 0
            :: (nth_chunk (payloadSize s) jsonString <$> seq 1 n)) as Hlo.
  { unfold laid_out. fold L. by rewrite Hn. }
  exists r, (nth_chunk (payloadSize s) jsonString 0),
         (nth_chunk (payloadSize s) jsonString <$> seq 1 n).
  rewrite <- Hlo. split; [exact Hr|]. split; [exact Hsl|].
  assert (uint8_t (payloadSize s) = payloadSize s) as Hu.
  { unfold uint8_t. change (2 ^ 8) with 256. apply Z.mod_small. lia. }
  split; [by rewrite Hc; cbn [len_byte]|]. split; [exact Hlen|].
  split.
  - rewrite Hreg, Hlo. unfold tlv. rewrite Hc at 1.
    cbn [fmap list_fmap concat encode marker len_byte data app].
    intros Htlv. apply read_tlv_first in Htlv as [_ Hd].
    rewrite Hlen in Hd. rewrite Hc in Hd. cbn [len_byte] in Hd. rewrite Hu in Hd. lia.
  - rewrite Hp'. pose proof (Z.mod_pos_bound L 255). destruct (L mod 255 =? 0); lia.
Qed.

Lemma pack_stale_payloadSize_stays_witness :
  0 <= payloadSize {| payloadSize := 45; beaconFrame := []; essidLength := 300;
                      headerLength := 2 |} < 255 /\
  255 <= Z.of_nat (length (letters 255)) < 32640 /\
  exists r c cs,
    pack_run {| payloadSize := 45; beaconFrame := []; essidLength := 300;
                headerLength := 2 |} (letters 255) = Some r /\
    slices (region r) = Some (c :: cs) /\
    len_byte c = 45 /\
    length (data c) = 255%nat /\
    tlv (region r) ≠ Some (c :: cs) /\
    0 <= payloadSize (snd r) < 255.
Proof.
  assert (0 <= 45 < 255) as H1 by lia.
  assert (255 <= Z.of_nat (length (letters 255)) < 32640) as H2
    by (unfold letters; rewrite length_replicate; lia).
  split; [exact H1|]. split; [exact H2|].
  exact (pack_stale_payloadSize_stays
           {| payloadSize := 45; beaconFrame := []; essidLength := 300;
              headerLength := 2 |} (letters 255) H1 H2).
Defined.

(** X7.  The document is cut at every 255th byte and nowhere else: the [k]-th
    chunk carries [min 255 (L - 255 k)] data bytes, so every chunk holds
    at least one and at most 255, and every data byte is a 7-bit value. *)
Theorem pack_chunk_sizes (s : statics) (jsonString : list byte) :
  Z.of_nat (length jsonString) < 32640 ->
  exists r cs,
    pack_run s jsonString = Some r /\
    slices (region r) = Some cs /\
    (forall k c, cs !! k = Some c ->
       length (data c) = (255 `min` (length jsonString - 255 * k))%nat /\
       (1 <= length (data c) <= 255)%nat) /\
    Forall (fun b => 0 <= b < 128) (concat (data <$> cs)).
Proof.
  intros HL. destruct (pack_run_chunks s jsonString HL) as (r & Hr & _ & Hsl & _).
  exists r, (laid_out (payloadSize s) jsonString).
  split; [exact Hr|]. split; [exact Hsl|]. split.
  - intros k c Hk. unfold laid_out in Hk.
    rewrite list_lookup_fmap in Hk.
    destruct (seq 0 _ !! k) as [k'|] eqn:Hseq; [|done].
    apply lookup_seq in Hseq as [-> Hlt]. cbn [Nat.add fmap option_fmap option_map] in Hk.
    injection Hk as <-. unfold nth_chunk. cbn [data].
    change (Z.to_nat chunkSize) with 255%nat.
    rewrite length_fmap, length_take, length_drop.
    split; [done|].
    assert (Z.of_nat k < slice_count (Z.of_nat (length jsonString))) as Hks.
    { pose proof (Z.div_pos (Z.of_nat (length jsonString) + (chunkSize - 1)) chunkSize).
      unfold slice_count in *. unfold chunkSize in *. lia. }
    unfold slice_count, chunkSize in Hks. change (255 - 1) with 254 in Hks.
    assert (Z.of_nat k * 255 < Z.of_nat (length jsonString) + 254 - 254) as Hlt'.
    { destruct (Z_lt_dec (Z.of_nat k * 255) (Z.of_nat (length jsonString))) as [|Hge]; [lia|].
      exfalso.
      assert ((Z.of_nat (length jsonString) + 254) / 255 <= Z.of_nat k); [|lia].
      apply Z.lt_succ_r, Z.div_lt_upper_bound; lia. }
    lia.
  - rewrite laid_out_data. apply Forall_fmap, Forall_true. intros c. apply nextByte_range.
Qed.

Lemma pack_chunk_sizes_witness :
  Z.of_nat (length (letters 300)) < 32640 /\
  exists r cs c,
    pack_run init (letters 300) = Some r /\
    slices (region r) = Some cs /\
    cs !! 1%nat = Some c /\
    length (data c) = 45%nat /\
    Forall (fun b => 0 <= b < 128) (concat (data <$> cs)).
Proof.
  split; [reflexivity|].
  destruct (pack_chunk_sizes init (letters 300) eq_refl) as (r & cs & Hr & Hcs & Hk & H7).
  assert (exists c, cs !! 1%nat = Some c) as [c Hc].
  { assert (Some cs = slices (region r)) as E by (symmetry; exact Hcs).
    assert (Some r = pack_run init (letters 300)) as Er by (symmetry; exact Hr).
    vm_compute in Er. injection Er as ->. vm_compute in E. injection E as ->.
    eexists. reflexivity. }
  exists r, cs, c. split; [exact Hr|]. split; [exact Hcs|]. split; [exact Hc|].
  split; [exact (proj1 (Hk 1%nat c Hc))|exact H7].
Defined.

(** X13.  The round trip on a vector at its defaults.  Byte [j] of the
    document, with every byte of 128 and above replaced by ['?'] (0x3F)
    and every ASCII byte kept, is stored after the header and the
    [j / 255 + 1] marker and length pairs written so far, whatever the
    entry state.  When [payloadSize] is 255 on entry, as it is initially,
    and the old vector does not hold the payload marker where the write
    cursor ends, as on the initial, empty vector, a receiver reading the
    whole buffer after the header chunk by chunk (marker, length byte,
    that many data bytes) finds the chunks [pack] laid out, and their data
    bytes concatenated are the document with the same replacement. *)
Theorem pack_roundtrip_from_defaults (s : statics) (jsonString : list byte) :
  Z.of_nat (length jsonString) < 32640 ->
  exists r,
    pack_run s jsonString = Some r /\
    (forall j c,
       jsonString !! j = Some c ->
       beaconFrame (snd r) !! (36 + 2 * (j / 255 + 1) + j)%nat
         = Some (if char_val c <? 128 then char_val c else 0x3F)) /\
    (payloadSize s = 255 ->
     beaconFrame s !! Z.to_nat (fst r) <> Some IDWhisperPayload ->
     Forall (fun c => marker c = IDWhisperPayload /\
                      len_byte c = Z.of_nat (length (data c)))
            (payload_chunks (beaconFrame (snd r))) /\
     concat (data <$> payload_chunks (beaconFrame (snd r))) =
       (fun c => if char_val c <? 128 then char_val c else 0x3F) <$> jsonString).
Proof.
  intros HL. destruct (pack_run_chunks s jsonString HL) as (r & Hr & Hreg & _).
  destruct (pack_run_explicit s jsonString HL) as (Hx & HW & Hfit).
  cbv zeta in Hx, HW, Hfit.
  exists r. split; [done|].
  assert (forall p, concat (data <$> laid_out p jsonString) =
          (fun c => if char_val c <? 128 then char_val c else 0x3F) <$> jsonString) as Hdata.
  { intros p. rewrite laid_out_data. apply list_fmap_ext. intros _ c _. apply nextByte_spec. }
  split.
  - intros j c Hc. pose proof (lookup_lt_Some _ _ _ Hc) as Hj.
    pose proof (encode_lookup (laid_out (payloadSize s) jsonString) j
                  (laid_out_well_sliced _ _)) as Hl.
    rewrite Hdata, length_fmap in Hl. specialize (Hl Hj).
    rewrite list_lookup_fmap, Hc in Hl. cbn [fmap option_fmap option_map] in Hl.
    rewrite <- Hreg in Hl. rewrite <- Hl.
    replace (36 + 2 * (j / 255 + 1) + j)%nat
      with (length header + (2 * (j / 255 + 1) + j))%nat by (cbn [length header]; lia).
    apply region_lookup. apply lookup_lt_is_Some. rewrite Hl. by eexists.
  - intros Hp Hstop. rewrite Hr in Hx. apply (inj Some) in Hx. subst r.
    cbn [fst snd beaconFrame] in *. rewrite Hp in *.
    set (W := concat (encode <$> laid_out 255 jsonString)) in *.
    set (old := vec_resize (beaconFrame s) _) in *.
    assert (payload_chunks (header ++ W ++ drop (length header + length W) old)
            = laid_out 255 jsonString) as Hpc.
    { unfold payload_chunks.
      change (Z.to_nat pwngridHeaderLength) with (length header).
      rewrite drop_app_length. apply read_payload_encode.
      - apply laid_out_markers.
      - apply laid_out_fresh_len.
      - rewrite !length_app. unfold W at 1. rewrite encode_length. lia.
      - rewrite head_lookup, lookup_drop, Nat.add_0_r.
        assert (Z.to_nat (pwngridHeaderLength + Z.of_nat (length W))
                = (length header + length W)%nat) as Hcur
          by (unfold pwngridHeaderLength; lia).
        rewrite Hcur in Hstop. unfold old, vec_resize.
        destruct (decide (length header + length W < length (beaconFrame s))%nat) as [Hin|Hout].
        + rewrite lookup_resize; [done| |done].
          unfold pwngridHeaderLength, chunkSize in *. lia.
        + rewrite lookup_resize_new; [discriminate|lia|].
          unfold pwngridHeaderLength, chunkSize in *. lia. }
    rewrite Hpc. split; [|apply Hdata].
    apply Forall_and. split; [apply laid_out_markers|apply laid_out_fresh_len].
Qed.

Lemma pack_roundtrip_from_defaults_witness :
  Z.of_nat (length [ "{"%byte; xe9; "}"%byte ]) < 32640 /\
  payloadSize init = 255 /\
  exists r,
    pack_run init [ "{"%byte; xe9; "}"%byte ] = Some r /\
    beaconFrame init !! Z.to_nat (fst r) <> Some IDWhisperPayload /\
    beaconFrame (snd r) !! 39%nat = Some 0x3F /\
    concat (data <$> payload_chunks (beaconFrame (snd r))) = [0x7B; 0x3F; 0x7D].
Proof.
  split; [reflexivity|]. split; [reflexivity|].
  destruct (pack_roundtrip_from_defaults init [ "{"%byte; xe9; "}"%byte ] eq_refl)
    as (r & Hr & Hat & Hrt).
  exists r. split; [exact Hr|].
  assert (beaconFrame init !! Z.to_nat (fst r) <> Some IDWhisperPayload) as Hstop
    by (cbn [beaconFrame init]; rewrite lookup_nil; discriminate).
  split; [exact Hstop|]. split; [exact (Hat 1%nat xe9 eq_refl)|].
  exact (proj2 (Hrt eq_refl Hstop)).
Defined.

(** A vector that held a longer frame: the second packing ends where the
    old frame has a marker, and the receiver still stops there, the stale
    length byte announcing more bytes than the buffer has left. *)
Example pack_over_longer_frame_reads_back :
  exists s1 r,
    pack init (letters 510) = Some s1 /\
    payloadSize s1 = 255 /\
    pack_run s1 (letters 255) = Some r /\
    beaconFrame s1 !! Z.to_nat (fst r) = Some IDWhisperPayload /\
    beaconFrame (snd r) !! Z.to_nat (fst r) = Some IDWhisperPayload /\
    concat (data <$> payload_chunks (beaconFrame (snd r))) = nextByte <$> letters 255.
Proof.
  do 2 eexists.
  split; [vm_compute; reflexivity|].
  split; [vm_compute; reflexivity|].
  split; [vm_compute; reflexivity|].
  split; [vm_compute; reflexivity|].
  split; [vm_compute; reflexivity|].
  vm_compute; reflexivity.
Qed.

End PackMore.

(** * Further properties of [send] and [advertise] *)

Section AdvertiseMore.
Import Frame Layout Chunks Radio Samples Observe.

Lemma count_if_app {A} (f : A -> bool) (l1 l2 : list A) :
  count_if f (l1 ++ l2) = (count_if f l1 + count_if f l2)%nat.
Proof. unfold count_if. by rewrite List.filter_app, length_app. Qed.

Lemma verdicts_S (e : env) (from n : nat) :
  verdicts e from (S n) = verdicts e from n ++ [tx_ok e (from + n)].
Proof. unfold verdicts. by rewrite seq_S, fmap_app. Qed.

Lemma documents_S (e : env) (from n : nat) :
  documents e from (S n) = documents e from n ++ [serialized e (from + n)].
Proof. unfold documents. by rewrite seq_S, fmap_app. Qed.

Lemma pack_sequence_snoc (docs : list (list byte)) : forall s d,
  pack_sequence s (docs ++ [d]) =
    frames ← pack_sequence s docs;
    s' ← pack (default s (last frames)) d;
    Some (frames ++ [s']).
Proof.
  induction docs as [|d0 docs IH]; intros s d; cbn [app pack_sequence].
  - cbn [mbind option_bind last default].
    by destruct (pack s d).
  - destruct (pack s d0) as [s0|]; cbn [mbind option_bind]; [|done].
    rewrite IH. destruct (pack_sequence s0 docs) as [frames|]; cbn [mbind option_bind]; [|done].
    assert (default s (last (s0 :: frames)) = default s0 (last frames)) as ->.
    { destruct frames as [|f frames]; [done|]. rewrite last_cons_cons.
      destruct (last (f :: frames)) eqn:E; [done|]. by apply last_None in E. }
    by destruct (pack _ d).
Qed.

(** What one round of the loop adds to the world, whatever the count. *)
Lemma advertise_body_round (e : env) (startTime : Z) (i : nat) (packets : Z) (w : world) :
  Z.of_nat (length (serialized e (n_pack w))) < 32640 ->
  exists packets' w' new s',
    advertise_body e startTime i (packets, w) = Some (packets', w') /\
    trace w' = trace w ++ new /\
    pack (frame w) (serialized e (n_pack w)) = Some s' /\
    frame w' = s' /\
    n_pack w' = S (n_pack w) /\
    n_tx w' = S (n_tx w) /\
    n_millis w' = (n_millis w + (if tx_ok e (n_tx w) then 1 else 0))%nat /\
    packets' = packets + (if tx_ok e (n_tx w) then 1 else 0) /\
    flat_map delay_of new = [102] /\
    flat_map tx_buffer new = [beaconFrame s'] /\
    count_if is_failure_line new = (if tx_ok e (n_tx w) then 0 else 1)%nat.
Proof.
  intros HL. destruct (send_small e w HL) as (r & Hr & Hsend).
  assert (pack (frame w) (serialized e (n_pack w)) = Some (snd r)) as Hpack
    by (unfold pack; by rewrite Hr).
  unfold advertise_body. rewrite Hsend. cbn [mbind option_bind].
  destruct (tx_ok e (n_tx w)).
  - unfold millis. cbn [n_millis frame trace n_pack n_tx].
    match goal with |- context [Float32.isinf ?x] => set (pps := x) end.
    destruct (Float32.isinf pps); cbn [negb].
    + eexists _, _, _, _. split; [reflexivity|]. cbn [trace frame n_pack n_tx n_millis].
      split; [reflexivity|]. split; [exact Hpack|].
      repeat split; (reflexivity || lia).
    + unfold rate_report, emit_event. cbn [trace frame n_pack n_tx n_millis].
      eexists _, _, _, _. split; [reflexivity|]. cbn [trace frame n_pack n_tx n_millis].
      rewrite <- !app_assoc. split; [reflexivity|]. split; [exact Hpack|].
      repeat split; (reflexivity || lia).
  - unfold emit_event. cbn [trace frame n_pack n_tx n_millis].
    eexists _, _, _, _. split; [reflexivity|]. cbn [trace frame n_pack n_tx n_millis].
    rewrite <- !app_assoc. split; [reflexivity|]. split; [exact Hpack|].
    repeat split; (reflexivity || lia).
Qed.

(** The whole run of an enabled [advertise]. *)
Lemma advertise_enabled_run (e : env) (w : world) :
  Config_advertise e = true ->
  (forall n, Z.of_nat (length (serialized e n)) < 32640) ->
  exists w' new frames,
    advertise e w = Some w' /\
    trace w' = trace w ++ new /\
    pack_sequence (frame w) (documents e (n_pack w) 150) = Some frames /\
    flat_map tx_buffer new = beaconFrame <$> frames /\
    frame w' = default (frame w) (last frames) /\
    flat_map delay_of new = 250 :: replicate 150 102 /\
    n_pack w' = (n_pack w + 150)%nat /\
    n_tx w' = (n_tx w + 150)%nat /\
    n_millis w' = (S (n_millis w) + count_if id (verdicts e (n_tx w) 150))%nat /\
    count_if is_failure_line new = count_if negb (verdicts e (n_tx w) 150).
Proof.
  intros Hflag HL. unfold advertise, millis. rewrite Hflag.
  set (startTime := millis_at e (n_millis w) mod 2 ^ 32).
  match goal with |- context [for_loop _ 0 150 (0, ?w0)] => set (w1 := w0) end.
  destruct (for_loop_invariant (advertise_body e startTime)
    (fun i (x : Z * world) =>
       n_pack (snd x) = (n_pack w + i)%nat /\
       n_tx (snd x) = (n_tx w + i)%nat /\
       n_millis (snd x) = (S (n_millis w) + count_if id (verdicts e (n_tx w) i))%nat /\
       exists new frames,
         trace (snd x) = trace w1 ++ new /\
         pack_sequence (frame w) (documents e (n_pack w) i) = Some frames /\
         frame (snd x) = default (frame w) (last frames) /\
         flat_map tx_buffer new = beaconFrame <$> frames /\
         flat_map delay_of new = replicate i 102 /\
         count_if is_failure_line new = count_if negb (verdicts e (n_tx w) i))
    150 0%nat (0, w1))
    as ([packets' w2] & Hloop & Hnp & Hnt & Hnm & new & frames & Htr & Hseq & Hfr & Htx & Hd & Hf).
  - intros i [packets wi] Hi (Hnp & Hnt & Hnm & new & frames & Htr & Hseq & Hfr & Htx & Hd & Hf).
    cbn [fst snd] in *.
    destruct (advertise_body_round e startTime i packets wi (HL _))
      as (packets1 & wi1 & new1 & s1 & Hb & Htr1 & Hpack & Hfr1 & Hnp1 & Hnt1 & Hnm1
          & _ & Hd1 & Htx1 & Hf1).
    exists (packets1, wi1). split; [exact Hb|]. cbn [fst snd].
    rewrite Hnp, Hnt in *. rewrite verdicts_S, !count_if_app.
    split; [lia|]. split; [lia|].
    split.
    { rewrite Hnm1, Hnm. unfold count_if.
      destruct (tx_ok e (n_tx w + i)); cbn; lia. }
    exists (new ++ new1), (frames ++ [s1]).
    split; [by rewrite Htr1, Htr, app_assoc|].
    split.
    { rewrite documents_S, pack_sequence_snoc, Hseq. cbn [mbind option_bind].
      rewrite <- Hfr, Hpack. done. }
    split; [by rewrite last_snoc|].
    rewrite !flat_map_app, Htx, Htx1, Hd, Hd1, fmap_snoc, replicate_S_end.
    split; [done|]. split; [done|].
    rewrite count_if_app, Hf, Hf1. unfold count_if.
    destruct (tx_ok e (n_tx w + i)); cbn; lia.
  - cbn [fst snd]. subst w1. unfold delay, emit_event.
    cbn [n_pack n_tx n_millis frame trace].
    split; [lia|]. split; [lia|]. split; [cbn; lia|].
    exists [], []. rewrite app_nil_r. by repeat split.
  - rewrite Hloop. cbn [mbind option_bind snd] in *.
    eexists _, _, frames. split; [reflexivity|].
    unfold emit_event. cbn [trace frame n_pack n_tx n_millis]. rewrite Htr.
    subst w1. unfold delay, emit_event. cbn [trace].
    rewrite <- !app_assoc. split; [reflexivity|].
    split; [exact Hseq|].
    cbn [app flat_map tx_buffer delay_of]. rewrite !flat_map_app.
    cbn [flat_map tx_buffer delay_of app]. rewrite !app_nil_r, Htx, Hd.
    split; [done|]. split; [exact Hfr|]. split; [done|].
    split; [exact Hnp|]. split; [exact Hnt|]. split; [exact Hnm|].
    change (?a :: ?b :: ?c :: ?d :: new ++ ?l) with ([a; b; c; d] ++ new ++ l).
    rewrite !count_if_app, Hf. change (0 + 150)%nat with 150%nat.
    set (c := count_if negb _). clearbody c.
    change (count_if is_failure_line [_; _; _; _]) with 0%nat. lia.
Qed.

Lemma count_if_negb (l : list bool) :
  (count_if negb l + count_if id l)%nat = length l.
Proof. induction l as [|[] l IH]; unfold count_if in *; cbn in *; lia. Qed.

Lemma pack_sequence_length (docs : list (list byte)) : forall s frames,
  pack_sequence s docs = Some frames -> length frames = length docs.
Proof.
  induction docs as [|d docs IH]; intros s frames; cbn [pack_sequence].
  - by intros [= <-].
  - destruct (pack s d) as [s'|]; cbn [mbind option_bind]; [|done].
    destruct (pack_sequence s' docs) as [rest|] eqn:E; cbn [mbind option_bind]; [|done].
    intros [= <-]. cbn [length]. f_equal. by eapply IH.
Qed.

Lemma pack_sequence_settled (n : nat) (s : statics) (d : list byte) :
  pack s d = Some s -> pack_sequence s (replicate n d) = Some (replicate n s).
Proof.
  intros Hs. induction n as [|n IH]; cbn [replicate pack_sequence]; [done|].
  rewrite Hs. cbn [mbind option_bind]. by rewrite IH.
Qed.

(** What one round of the loop hands to the radio: the pause, then the
    transmission of the vector just packed. *)
Lemma advertise_body_radio (e : env) (startTime : Z) (i : nat) (packets : Z) (w : world) :
  Z.of_nat (length (serialized e (n_pack w))) < 32640 ->
  exists packets' w' new s',
    advertise_body e startTime i (packets, w) = Some (packets', w') /\
    trace w' = trace w ++ new /\
    pack (frame w) (serialized e (n_pack w)) = Some s' /\
    frame w' = s' /\
    n_pack w' = S (n_pack w) /\
    flat_map radio_view new =
      [EvDelay 102; EvTx (beaconFrame s') (Z.of_nat (length (beaconFrame s')))].
Proof.
  intros HL. destruct (send_small e w HL) as (r & Hr & Hsend).
  assert (pack (frame w) (serialized e (n_pack w)) = Some (snd r)) as Hpack
    by (unfold pack; by rewrite Hr).
  unfold advertise_body. rewrite Hsend. cbn [mbind option_bind].
  destruct (tx_ok e (n_tx w)).
  - unfold millis. cbn [n_millis frame trace n_pack n_tx].
    match goal with |- context [Float32.isinf ?x] => set (pps := x) end.
    destruct (Float32.isinf pps); cbn [negb].
    + eexists _, _, _, _. split; [reflexivity|]. cbn [trace frame n_pack].
      split; [reflexivity|]. split; [exact Hpack|]. by repeat split.
    + unfold rate_report, emit_event. cbn [trace frame n_pack n_tx n_millis].
      eexists _, _, _, _. split; [reflexivity|]. cbn [trace frame n_pack].
      rewrite <- !app_assoc. split; [reflexivity|]. split; [exact Hpack|].
      by repeat split.
  - unfold emit_event. cbn [trace frame n_pack n_tx n_millis].
    eexists _, _, _, _. split; [reflexivity|]. cbn [trace frame n_pack].
    rewrite <- !app_assoc. split; [reflexivity|]. split; [exact Hpack|].
    by repeat split.
Qed.

(** The pauses and transmissions of a whole run, in their order. *)
Lemma advertise_enabled_radio (e : env) (w : world) :
  Config_advertise e = true ->
  (forall n, Z.of_nat (length (serialized e n)) < 32640) ->
  exists w' new frames,
    advertise e w = Some w' /\
    trace w' = trace w ++ new /\
    pack_sequence (frame w) (documents e (n_pack w) 150) = Some frames /\
    flat_map radio_view new =
      EvDelay 250 ::
      flat_map (fun s => [EvDelay 102;
                          EvTx (beaconFrame s) (Z.of_nat (length (beaconFrame s)))])
               frames.
Proof.
  intros Hflag HL. unfold advertise, millis. rewrite Hflag.
  set (startTime := millis_at e (n_millis w) mod 2 ^ 32).
  match goal with |- context [for_loop _ 0 150 (0, ?w0)] => set (w1 := w0) end.
  destruct (for_loop_invariant (advertise_body e startTime)
    (fun i (x : Z * world) =>
       n_pack (snd x) = (n_pack w + i)%nat /\
       exists new frames,
         trace (snd x) = trace w1 ++ new /\
         pack_sequence (frame w) (documents e (n_pack w) i) = Some frames /\
         frame (snd x) = default (frame w) (last frames) /\
         flat_map radio_view new =
           flat_map (fun s => [EvDelay 102;
                               EvTx (beaconFrame s) (Z.of_nat (length (beaconFrame s)))])
                    frames)
    150 0%nat (0, w1))
    as ([packets' w2] & Hloop & _ & new & frames & Htr & Hseq & _ & Hrv).
  - intros i [packets wi] Hi (Hnp & new & frames & Htr & Hseq & Hfr & Hrv).
    cbn [fst snd] in *.
    destruct (advertise_body_radio e startTime i packets wi (HL _))
      as (packets1 & wi1 & new1 & s1 & Hb & Htr1 & Hpack & Hfr1 & Hnp1 & Hrv1).
    exists (packets1, wi1). split; [exact Hb|]. cbn [fst snd].
    rewrite Hnp in *. split; [lia|].
    exists (new ++ new1), (frames ++ [s1]).
    split; [by rewrite Htr1, Htr, app_assoc|].
    split.
    { rewrite documents_S, pack_sequence_snoc, Hseq. cbn [mbind option_bind].
      rewrite <- Hfr, Hpack. done. }
    split; [by rewrite last_snoc|].
    rewrite !flat_map_app, Hrv, Hrv1. cbn [flat_map]. by rewrite app_nil_r.
  - cbn [fst snd]. subst w1. unfold delay, emit_event.
    cbn [n_pack n_tx n_millis frame trace].
    split; [lia|]. exists [], []. rewrite app_nil_r. by repeat split.
  - rewrite Hloop. cbn [mbind option_bind snd] in *.
    eexists _, _, frames. split; [reflexivity|].
    unfold emit_event. cbn [trace]. rewrite Htr.
    subst w1. unfold delay, emit_event. cbn [trace].
    rewrite <- !app_assoc. split; [reflexivity|].
    split; [exact Hseq|].
    cbn [app flat_map radio_view]. rewrite !flat_map_app.
    cbn [flat_map radio_view app]. by rewrite !app_nil_r, Hrv.
Qed.

(** X8.  An enabled [advertise] makes exactly 150 rounds whatever the radio
    answers: 150 documents are built and packed, 150 buffers are handed to
    the radio, and the pauses and transmissions come in this order: one
    pause of 250 ms, then for each round a pause of 102 ms directly
    followed by the transmission of the vector packed in that round, with
    its size as the length. *)
Theorem advertise_enabled_makes_150_rounds (e : env) (w : world) :
  Config_advertise e = true ->
  (forall n, Z.of_nat (length (serialized e n)) < 32640) ->
  exists w' new frames,
    advertise e w = Some w' /\
    trace w' = trace w ++ new /\
    pack_sequence (frame w) (documents e (n_pack w) 150) = Some frames /\
    length frames = 150%nat /\
    flat_map radio_view new =
      EvDelay 250 ::
      flat_map (fun s => [EvDelay 102;
                          EvTx (beaconFrame s) (Z.of_nat (length (beaconFrame s)))])
               frames /\
    length (flat_map tx_buffer new) = 150%nat /\
    flat_map delay_of new = 250 :: replicate 150 102 /\
    sumZ (flat_map delay_of new) = 15550 /\
    n_pack w' = (n_pack w + 150)%nat /\
    n_tx w' = (n_tx w + 150)%nat.
Proof.
  intros Hflag HL.
  destruct (advertise_enabled_run e w Hflag HL)
    as (w' & new & frames & Ha & Htr & Hseq & Htx & _ & Hd & Hnp & Hnt & _).
  destruct (advertise_enabled_radio e w Hflag HL)
    as (w'' & new' & frames' & Ha' & Htr' & Hseq' & Hrv).
  rewrite Ha in Ha'. apply (inj Some) in Ha'. subst w''.
  rewrite Htr in Htr'. apply app_inv_head in Htr'. subst new'.
  rewrite Hseq in Hseq'. apply (inj Some) in Hseq'. subst frames'.
  assert (length frames = 150%nat) as Hlen.
  { rewrite (pack_sequence_length _ _ _ Hseq).
    unfold documents. by rewrite length_fmap, length_seq. }
  exists w', new, frames. split; [exact Ha|]. split; [exact Htr|].
  split; [exact Hseq|]. split; [exact Hlen|]. split; [exact Hrv|].
  split; [by rewrite Htx, length_fmap|].
  split; [exact Hd|]. split; [by rewrite Hd|]. by split.
Qed.

Lemma advertise_enabled_makes_150_rounds_witness :
  Config_advertise (collaborators true braces (fun _ => 0)) = true /\
  (forall n, Z.of_nat (length (serialized (collaborators true braces (fun _ => 0)) n))
             < 32640) /\
  exists w' new frames,
    advertise (collaborators true braces (fun _ => 0)) boot = Some w' /\
    trace w' = new /\
    length frames = 150%nat /\
    flat_map radio_view new =
      EvDelay 250 ::
      flat_map (fun s => [EvDelay 102;
                          EvTx (beaconFrame s) (Z.of_nat (length (beaconFrame s)))])
               frames /\
    length (flat_map tx_buffer new) = 150%nat /\
    flat_map delay_of new = 250 :: replicate 150 102 /\
    sumZ (flat_map delay_of new) = 15550 /\
    n_pack w' = 150%nat /\
    n_tx w' = 150%nat.
Proof.
  split; [reflexivity|]. split; [intros n; reflexivity|].
  destruct (advertise_enabled_makes_150_rounds (collaborators true braces (fun _ => 0)) boot
              eq_refl (fun n => eq_refl))
    as (w' & new & frames & Ha & Htr & _ & Hlen & Hrv & Hrest).
  exists w', new, frames. split; [exact Ha|]. split; [exact Htr|].
  split; [exact Hlen|]. split; [exact Hrv|]. exact Hrest.
Defined.

(** X9.  A failed transmission is reported and skipped: the run prints one
    failure line per transmission the radio refuses, and reads the clock
    once at its start and once more after each transmission the radio
    accepts. *)
Theorem advertise_reports_each_failure (e : env) (w : world) :
  Config_advertise e = true ->
  (forall n, Z.of_nat (length (serialized e n)) < 32640) ->
  exists w' new,
    advertise e w = Some w' /\
    trace w' = trace w ++ new /\
    count_if is_failure_line new = count_if negb (verdicts e (n_tx w) 150) /\
    n_millis w' = (S (n_millis w) + count_if id (verdicts e (n_tx w) 150))%nat /\
    (count_if is_failure_line new + (n_millis w' - S (n_millis w)) = 150)%nat.
Proof.
  intros Hflag HL.
  destruct (advertise_enabled_run e w Hflag HL)
    as (w' & new & frames & Ha & Htr & _ & _ & _ & _ & _ & _ & Hnm & Hf).
  exists w', new. split; [exact Ha|]. split; [exact Htr|].
  split; [exact Hf|]. split; [exact Hnm|].
  rewrite Hf, Hnm.
  pose proof (count_if_negb (verdicts e (n_tx w) 150)) as Hc.
  assert (length (verdicts e (n_tx w) 150) = 150%nat) as Hlen
    by (unfold verdicts; by rewrite length_fmap, length_seq).
  rewrite Hlen in Hc. lia.
Qed.

Lemma advertise_reports_each_failure_witness :
  Config_advertise
    {| Config_advertise := true; serialized := fun _ => braces;
       tx_ok := Nat.even; millis_at := fun _ => 0 |} = true /\
  (forall n : nat, Z.of_nat (length braces) < 32640) /\
  exists w' new,
    advertise {| Config_advertise := true; serialized := fun _ => braces;
                 tx_ok := Nat.even; millis_at := fun _ => 0 |} boot = Some w' /\
    trace w' = new /\
    count_if is_failure_line new = 75%nat /\
    n_millis w' = 76%nat.
Proof.
  split; [reflexivity|]. split; [intros n; reflexivity|].
  destruct (advertise_reports_each_failure
              {| Config_advertise := true; serialized := fun _ => braces;
                 tx_ok := Nat.even; millis_at := fun _ => 0 |} boot
              eq_refl (fun n => eq_refl)) as (w' & new & Ha & Htr & Hf & Hnm & _).
  exists w', new. split; [exact Ha|]. split; [exact Htr|].
  split; [exact Hf|exact Hnm].
Defined.

(** X10.  The buffers an enabled [advertise] hands to the radio are, in order,
    the buffers left by 150 successive calls of [pack], one per freshly
    serialized document, each starting from the statics of the one before;
    the statics at the end are those of the last call. *)
Theorem advertise_transmits_successive_packs (e : env) (w : world) :
  Config_advertise e = true ->
  (forall n, Z.of_nat (length (serialized e n)) < 32640) ->
  exists w' new frames,
    advertise e w = Some w' /\
    trace w' = trace w ++ new /\
    pack_sequence (frame w) (documents e (n_pack w) 150) = Some frames /\
    flat_map tx_buffer new = beaconFrame <$> frames /\
    last frames = Some (frame w').
Proof.
  intros Hflag HL.
  destruct (advertise_enabled_run e w Hflag HL)
    as (w' & new & frames & Ha & Htr & Hseq & Htx & Hfr & _).
  exists w', new, frames. split; [exact Ha|]. split; [exact Htr|].
  split; [exact Hseq|]. split; [exact Htx|].
  rewrite Hfr. pose proof (pack_sequence_length _ _ _ Hseq) as Hlen.
  unfold documents in Hlen. rewrite length_fmap, length_seq in Hlen.
  destruct (last frames) eqn:E; [done|].
  apply last_None in E. subst frames. done.
Qed.

Lemma advertise_transmits_successive_packs_witness :
  Config_advertise (collaborators true braces (fun _ => 0)) = true /\
  (forall n, Z.of_nat (length (serialized (collaborators true braces (fun _ => 0)) n))
             < 32640) /\
  exists w' new frames,
    advertise (collaborators true braces (fun _ => 0)) boot = Some w' /\
    trace w' = new /\
    pack_sequence init (replicate 150 braces) = Some frames /\
    flat_map tx_buffer new = beaconFrame <$> frames /\
    last frames = Some (frame w').
Proof.
  split; [reflexivity|]. split; [intros n; reflexivity|].
  exact (advertise_transmits_successive_packs (collaborators true braces (fun _ => 0)) boot
           eq_refl (fun n => eq_refl)).
Defined.

(** X11.  When the document does not change during the run, the frames settle
    at once: the first transmission carries the first packing, and the 149
    that follow all carry the same buffer, that of the second packing. *)
Theorem advertise_steady_frames (e : env) (w : world) (jsonString : list byte) :
  Config_advertise e = true ->
  (forall n, serialized e n = jsonString) ->
  Z.of_nat (length jsonString) < 32640 ->
  exists w' new s1 s2,
    advertise e w = Some w' /\
    trace w' = trace w ++ new /\
    pack (frame w) jsonString = Some s1 /\
    pack s1 jsonString = Some s2 /\
    flat_map tx_buffer new = beaconFrame s1 :: replicate 149 (beaconFrame s2) /\
    frame w' = s2.
Proof.
  intros Hflag Hdoc HL.
  destruct (advertise_enabled_run e w Hflag) as
    (w' & new & frames & Ha & Htr & Hseq & Htx & Hfr & _).
  { intros n. by rewrite Hdoc. }
  destruct (pack_three_times (frame w) jsonString HL)
    as (s1 & s2 & H1 & H2 & H3 & _).
  assert (documents e (n_pack w) 150 = replicate 150 jsonString) as Hdocs.
  { unfold documents. generalize 150%nat. intros n. generalize 0%nat.
    induction n as [|n IH]; intros from; cbn [seq fmap list_fmap replicate]; [done|].
    by rewrite Hdoc, IH. }
  rewrite Hdocs in Hseq.
  change (replicate 150 jsonString)
    with (jsonString :: jsonString :: replicate 148 jsonString) in Hseq.
  cbn [pack_sequence] in Hseq.
  rewrite H1 in Hseq. cbn [mbind option_bind] in Hseq.
  rewrite H2 in Hseq. cbn [mbind option_bind] in Hseq.
  rewrite (pack_sequence_settled 148 s2 jsonString H3) in Hseq.
  cbn [mbind option_bind] in Hseq. apply (inj Some) in Hseq. subst frames.
  exists w', new, s1, s2. split; [exact Ha|]. split; [exact Htr|].
  split; [exact H1|]. split; [exact H2|].
  split.
  - rewrite Htx. change (s1 :: s2 :: replicate 148 s2) with (s1 :: replicate 149 s2).
    by rewrite fmap_cons, fmap_replicate.
  - rewrite Hfr. change (s1 :: s2 :: replicate 148 s2) with (s1 :: replicate 149 s2).
    rewrite replicate_S_end, app_comm_cons, last_snoc. reflexivity.
Qed.

Lemma advertise_steady_frames_witness :
  Config_advertise (collaborators true (letters 300) (fun _ => 0)) = true /\
  (forall n, serialized (collaborators true (letters 300) (fun _ => 0)) n = letters 300) /\
  Z.of_nat (length (letters 300)) < 32640 /\
  exists w' new s1 s2,
    advertise (collaborators true (letters 300) (fun _ => 0)) boot = Some w' /\
    trace w' = new /\
    pack init (letters 300) = Some s1 /\
    pack s1 (letters 300) = Some s2 /\
    flat_map tx_buffer new = beaconFrame s1 :: replicate 149 (beaconFrame s2) /\
    frame w' = s2.
Proof.
  split; [reflexivity|]. split; [intros n; reflexivity|]. split; [reflexivity|].
  exact (advertise_steady_frames (collaborators true (letters 300) (fun _ => 0)) boot
           (letters 300) eq_refl (fun n => eq_refl) eq_refl).
Defined.

End AdvertiseMore.

(** * binary32: magnitudes *)

Section Digits.

Lemma digits2_pos_bounds (p : positive) :
  2 ^ (Z.pos (digits2_pos p) - 1) <= Z.pos p < 2 ^ Z.pos (digits2_pos p).
Proof.
  induction p as [p IH|p IH|]; cbn [digits2_pos].
  - rewrite Pos2Z.inj_succ. replace (Z.succ (Z.pos (digits2_pos p)) - 1)
      with (Z.succ (Z.pos (digits2_pos p) - 1)) by lia.
    rewrite !Z.pow_succ_r by lia. lia.
  - rewrite Pos2Z.inj_succ. replace (Z.succ (Z.pos (digits2_pos p)) - 1)
      with (Z.succ (Z.pos (digits2_pos p) - 1)) by lia.
    rewrite !Z.pow_succ_r by lia. lia.
  - cbn. lia.
Qed.

Lemma Zdigits2_nonneg (m : Z) : 0 <= Zdigits2 m.
Proof. destruct m; cbn; lia. Qed.

Lemma Zdigits2_lt_pow (m : Z) : 0 <= m -> m < 2 ^ Zdigits2 m.
Proof.
  destruct m as [|p|p]; cbn [Zdigits2]; [cbn; lia| |lia].
  intros _. apply digits2_pos_bounds.
Qed.

Lemma Zdigits2_ge_pow (m : Z) : 0 < m -> 2 ^ (Zdigits2 m - 1) <= m.
Proof.
  destruct m as [|p|p]; cbn [Zdigits2]; [lia| |lia].
  intros _. apply digits2_pos_bounds.
Qed.

(** A number below [2 ^ k] has at most [k] digits. *)
Lemma Zdigits2_le (m k : Z) : 0 <= k -> 0 <= m < 2 ^ k -> Zdigits2 m <= k.
Proof.
  intros Hk [H0 Hm]. destruct (Z.eq_dec m 0) as [->|Hne]; [cbn; lia|].
  destruct (Z_le_gt_dec (Zdigits2 m) k) as [|Hgt]; [done|exfalso].
  pose proof (Zdigits2_ge_pow m ltac:(lia)) as Hge.
  assert (2 ^ k <= 2 ^ (Zdigits2 m - 1)) by (apply Z.pow_le_mono_r; lia).
  lia.
Qed.

Lemma Zdigits2_mono (a b : Z) : 0 <= a <= b -> Zdigits2 a <= Zdigits2 b.
Proof.
  intros [Ha Hab]. apply Zdigits2_le; [apply Zdigits2_nonneg|].
  pose proof (Zdigits2_lt_pow b ltac:(lia)). lia.
Qed.

Lemma Zdigits2_succ (m : Z) : 0 <= m -> Zdigits2 (m + 1) <= Zdigits2 m + 1.
Proof.
  intros Hm. pose proof (Zdigits2_nonneg m). apply Zdigits2_le; [lia|].
  pose proof (Zdigits2_lt_pow m Hm). rewrite Z.pow_add_r by lia.
  change (2 ^ 1) with 2. lia.
Qed.

Lemma Zdigits2_mul (a b : Z) : 0 <= a -> 0 <= b -> Zdigits2 (a * b) <= Zdigits2 a + Zdigits2 b.
Proof.
  intros Ha Hb. pose proof (Zdigits2_nonneg a). pose proof (Zdigits2_nonneg b).
  apply Zdigits2_le; [lia|]. rewrite Z.pow_add_r by lia.
  pose proof (Zdigits2_lt_pow a Ha). pose proof (Zdigits2_lt_pow b Hb). nia.
Qed.

Lemma Zdigits2_div_pow (m n : Z) :
  0 <= m -> 0 <= n -> Zdigits2 (m / 2 ^ n) <= Z.max 0 (Zdigits2 m - n).
Proof.
  intros Hm Hn. pose proof (Zdigits2_lt_pow m Hm) as Hlt.
  pose proof (Zdigits2_nonneg m) as Hd.
  assert (0 < 2 ^ n) by (apply Z.pow_pos_nonneg; lia).
  destruct (Z_le_gt_dec n (Zdigits2 m)) as [Hle|Hgt].
  - rewrite Z.max_r by lia. apply Zdigits2_le; [lia|].
    split; [apply Z.div_pos; lia|].
    apply Z.div_lt_upper_bound; [lia|].
    rewrite <- Z.pow_add_r by lia. replace (n + (Zdigits2 m - n)) with (Zdigits2 m) by lia.
    done.
  - rewrite Z.max_l by lia. rewrite Z.div_small; [done|].
    split; [lia|]. assert (2 ^ Zdigits2 m <= 2 ^ n) by (apply Z.pow_le_mono_r; lia). lia.
Qed.

Lemma div_pow_pos (m n : Z) : 0 <= n < Zdigits2 m -> 0 < m -> 0 < m / 2 ^ n.
Proof.
  intros Hn Hm. pose proof (Zdigits2_ge_pow m Hm).
  assert (2 ^ n <= 2 ^ (Zdigits2 m - 1)) by (apply Z.pow_le_mono_r; lia).
  assert (0 < 2 ^ n) by (apply Z.pow_pos_nonneg; lia).
  apply Z.div_str_pos. lia.
Qed.

Lemma digits2_pos_iter_xO (k m : positive) :
  Z.pos (digits2_pos (Pos.iter xO m k)) = Z.pos (digits2_pos m) + Z.pos k.
Proof.
  revert m. induction k as [|k IH] using Pos.peano_ind; intros m.
  - cbn [Pos.iter digits2_pos]. lia.
  - rewrite Pos.iter_succ. cbn [digits2_pos]. rewrite Pos2Z.inj_succ, IH. lia.
Qed.

End Digits.

Section Shift.

Lemma shr_1_half mrs : 0 <= shr_m mrs -> shr_m (shr_1 mrs) = shr_m mrs / 2.
Proof.
  destruct mrs as [m r s]. cbn [shr_m]. intros Hm.
  destruct m as [|[q|q|]|q]; cbn [shr_1 shr_m]; try lia; try reflexivity.
  - rewrite Pos2Z.inj_xI. apply (Z.div_unique _ _ _ 1); lia.
  - rewrite Pos2Z.inj_xO. apply (Z.div_unique _ _ _ 0); lia.
Qed.

Lemma shr_1_half_nonneg mrs : 0 <= shr_m mrs -> 0 <= shr_m (shr_1 mrs).
Proof.
  intros Hm. rewrite shr_1_half by done. apply Z.div_pos; lia.
Qed.

Lemma div_div_pow (m a b : Z) : 0 <= a -> 0 <= b -> m / 2 ^ a / 2 ^ b = m / 2 ^ (a + b).
Proof.
  intros Ha Hb. assert (0 < 2 ^ a) by (apply Z.pow_pos_nonneg; lia).
  assert (0 < 2 ^ b) by (apply Z.pow_pos_nonneg; lia).
  rewrite Z.div_div by lia. by rewrite Z.pow_add_r.
Qed.

Lemma iter_shr_1_div n : forall mrs,
  0 <= shr_m mrs ->
  shr_m (SpecFloat.iter_pos shr_1 n mrs) = shr_m mrs / 2 ^ Z.pos n
  /\ 0 <= shr_m (SpecFloat.iter_pos shr_1 n mrs).
Proof.
  induction n as [n IH|n IH|]; intros mrs Hm; cbn [SpecFloat.iter_pos].
  - pose proof (shr_1_half_nonneg mrs Hm) as H1.
    destruct (IH _ H1) as [E2 H2]. destruct (IH _ H2) as [E3 H3].
    split; [|done]. rewrite E3, E2, shr_1_half by done.
    change 2 with (2 ^ 1) at 1. rewrite !div_div_pow by lia.
    f_equal. f_equal. lia.
  - destruct (IH _ Hm) as [E2 H2]. destruct (IH _ H2) as [E3 H3].
    split; [|done]. rewrite E3, E2, div_div_pow by lia. f_equal. f_equal. lia.
  - split; [|by apply shr_1_half_nonneg]. rewrite shr_1_half by done. reflexivity.
Qed.

(** [shr] of a non-negative mantissa: exponent and mantissa. *)
Lemma shr_spec mrs e n :
  0 <= shr_m mrs ->
  snd (shr mrs e n) = e + Z.max 0 n /\
  shr_m (fst (shr mrs e n)) = shr_m mrs / 2 ^ Z.max 0 n.
Proof.
  intros Hm. unfold shr. destruct n as [|p|p]; cbn [fst snd].
  - rewrite Z.max_l by lia. cbn. split; [lia|]. by rewrite Z.div_1_r.
  - rewrite Z.max_r by lia. split; [done|]. by apply iter_shr_1_div.
  - rewrite Z.max_l by lia. cbn. split; [lia|]. by rewrite Z.div_1_r.
Qed.

End Shift.

Section Round32.

Lemma fexp_binary32 x : fexp 24 128 x = Z.max (x - 24) (-149).
Proof. reflexivity. Qed.

Lemma shr_fexp_spec m e l :
  0 <= m ->
  snd (shr_fexp 24 128 m e l) = e + Z.max 0 (fexp 24 128 (Zdigits2 m + e) - e) /\
  shr_m (fst (shr_fexp 24 128 m e l)) = m / 2 ^ Z.max 0 (fexp 24 128 (Zdigits2 m + e) - e).
Proof.
  intros Hm. unfold shr_fexp.
  assert (shr_m (shr_record_of_loc m l) = m) as Hrec by (by destruct l as [|[]]).
  pose proof (shr_spec (shr_record_of_loc m l) e (fexp 24 128 (Zdigits2 m + e) - e)) as Hs.
  rewrite Hrec in Hs. by apply Hs.
Qed.

Lemma round_nearest_even_bounds m l :
  m <= round_nearest_even m l <= m + 1.
Proof.
  unfold round_nearest_even. destruct l as [|[]]; try lia. destruct (Z.even m); lia.
Qed.

(** Rounding to binary32 a non-negative mantissa [mx] at exponent [ex]:
    when the magnitude leaves room, the result is a zero or a finite
    number whose exponent and magnitude are bounded by those given. *)
Lemma binary_round_aux_bounds sx mx ex lx :
  0 <= mx ->
  Z.max ex (Z.max (Zdigits2 mx + ex - 23) (-149)) <= 104 ->
  binary_round_aux 24 128 sx mx ex lx = S754_zero sx \/
  exists m e,
    binary_round_aux 24 128 sx mx ex lx = S754_finite sx m e /\
    ex <= e <= Z.max ex (Z.max (Zdigits2 mx + ex - 23) (-149)) /\
    Zdigits2 (Z.pos m) + e <= Z.max (ex + 1) (Z.max (Zdigits2 mx + ex + 1) (-148)).
Proof.
  intros Hm Hhi. unfold binary_round_aux.
  destruct (shr_fexp_spec mx ex lx Hm) as [He' Hm'].
  destruct (shr_fexp 24 128 mx ex lx) as [mrs' e']. cbn [fst snd] in He', Hm'.
  set (n1 := Z.max 0 (fexp 24 128 (Zdigits2 mx + ex) - ex)) in *.
  assert (0 <= shr_m mrs') as Hm'0.
  { rewrite Hm'. apply Z.div_pos; [lia|]. apply Z.pow_pos_nonneg; lia. }
  pose proof (round_nearest_even_bounds (shr_m mrs') (loc_of_shr_record mrs')) as Hr.
  set (m1 := round_nearest_even (shr_m mrs') (loc_of_shr_record mrs')) in *.
  destruct (shr_fexp_spec m1 e' loc_Exact ltac:(lia)) as [He'' Hm''].
  destruct (shr_fexp 24 128 m1 e' loc_Exact) as [mrs'' e'']. cbn [fst snd] in He'', Hm''.
  set (n2 := Z.max 0 (fexp 24 128 (Zdigits2 m1 + e') - e')) in *.
  pose proof (Zdigits2_div_pow mx n1 Hm ltac:(lia)) as Hd'. rewrite <- Hm' in Hd'.
  pose proof (Zdigits2_mono m1 (shr_m mrs' + 1) ltac:(lia)) as Hd1.
  pose proof (Zdigits2_succ (shr_m mrs') Hm'0) as Hd1'.
  pose proof (Zdigits2_div_pow m1 n2 ltac:(lia) ltac:(lia)) as Hd''. rewrite <- Hm'' in Hd''.
  pose proof (Zdigits2_nonneg mx). pose proof (Zdigits2_nonneg m1).
  pose proof (Zdigits2_nonneg (shr_m mrs')).
  assert (0 <= shr_m mrs'') as Hm''0.
  { rewrite Hm''. apply Z.div_pos; [lia|]. apply Z.pow_pos_nonneg; lia. }
  unfold n1, n2 in *. rewrite !fexp_binary32 in *.
  destruct (shr_m mrs'') as [|q|q] eqn:Hq; [by left| |lia].
  right. cbn [Zdigits2] in Hd''.
  assert (e'' <= Z.max ex (Z.max (Zdigits2 mx + ex - 23) (-149))) as Hub by lia.
  change (128 - 24) with 104.
  destruct (Z.leb_spec e'' 104) as [_|Hgt]; [|lia].
  exists q, e''. split; [done|]. split; [lia|].
  change (Zdigits2 (Z.pos q)) with (Z.pos (digits2_pos q)). lia.
Qed.

(** Without underflow a positive mantissa does not round to zero. *)
Lemma binary_round_aux_nonzero sx mx ex lx :
  0 < mx -> -125 <= Zdigits2 mx + ex ->
  binary_round_aux 24 128 sx mx ex lx <> S754_zero sx.
Proof.
  intros Hm HE. unfold binary_round_aux.
  destruct (shr_fexp_spec mx ex lx ltac:(lia)) as [He' Hm'].
  destruct (shr_fexp 24 128 mx ex lx) as [mrs' e']. cbn [fst snd] in He', Hm'.
  set (n1 := Z.max 0 (fexp 24 128 (Zdigits2 mx + ex) - ex)) in *.
  pose proof (Zdigits2_ge_pow mx Hm) as Hge.
  pose proof (Zdigits2_lt_pow mx ltac:(lia)) as Hlt.
  assert (1 <= Zdigits2 mx) as Hd1.
  { destruct mx; cbn; lia. }
  assert (n1 < Zdigits2 mx) as Hn1 by (unfold n1; rewrite fexp_binary32; lia).
  assert (0 < shr_m mrs') as Hm'0 by (rewrite Hm'; apply div_pow_pos; lia).
  pose proof (round_nearest_even_bounds (shr_m mrs') (loc_of_shr_record mrs')) as Hr.
  set (m1 := round_nearest_even (shr_m mrs') (loc_of_shr_record mrs')) in *.
  destruct (shr_fexp_spec m1 e' loc_Exact ltac:(lia)) as [He'' Hm''].
  destruct (shr_fexp 24 128 m1 e' loc_Exact) as [mrs'' e'']. cbn [fst snd] in He'', Hm''.
  set (n2 := Z.max 0 (fexp 24 128 (Zdigits2 m1 + e') - e')) in *.
  (* the magnitude did not shrink, so the second shift is below the digits *)
  assert (2 ^ (Zdigits2 mx - 1 - n1) <= shr_m mrs') as Hlow.
  { rewrite Hm'. apply Z.div_le_lower_bound; [apply Z.pow_pos_nonneg; lia|].
    rewrite <- Z.pow_add_r by lia. replace (n1 + (Zdigits2 mx - 1 - n1)) with (Zdigits2 mx - 1) by lia.
    done. }
  assert (Zdigits2 mx - n1 <= Zdigits2 m1) as Hdm1.
  { destruct (Z_le_gt_dec (Zdigits2 mx - n1) (Zdigits2 m1)) as [|Hgt]; [done|exfalso].
    pose proof (Zdigits2_lt_pow m1 ltac:(lia)).
    assert (2 ^ Zdigits2 m1 <= 2 ^ (Zdigits2 mx - 1 - n1))
      by (apply Z.pow_le_mono_r; lia).
    lia. }
  assert (n2 < Zdigits2 m1) as Hn2.
  { unfold n2, n1 in *. rewrite !fexp_binary32 in *. lia. }
  assert (0 < shr_m mrs'') as Hm''0 by (rewrite Hm''; apply div_pow_pos; lia).
  destruct (shr_m mrs'') as [|q|q]; [lia| |lia].
  destruct (e'' <=? 128 - 24); discriminate.
Qed.

End Round32.


(** ** The rate when time has elapsed *)

Section Rate.
Import Float32 Radio Samples.

(** An elapsed time of 1 to [2^32 - 1] ms converts to a positive finite
    float whose exponent is at least -23. *)
Lemma of_Z_elapsed el :
  1 <= el < 2 ^ 32 ->
  exists m e, of_Z el = S754_finite false m e /\ -23 <= e.
Proof.
  intros Hel. destruct el as [|p|p]; try lia.
  unfold of_Z, binary_normalize, binary_round. change prec with 24. change emax with 128.
  pose proof (digits2_pos_bounds p) as Hp.
  assert (1 <= Z.pos (digits2_pos p) <= 32) as Hd.
  { split; [lia|]. apply (Zdigits2_le (Z.pos p) 32); lia. }
  destruct (shl_align p 0 _) as [mz ez] eqn:Hsh.
  assert (-23 <= ez <= 0 /\ Zdigits2 (Z.pos mz) + ez = Z.pos (digits2_pos p)) as [Hez HE].
  { unfold shl_align in Hsh. rewrite Z.add_0_r, Z.sub_0_r in Hsh.
    change (fexp 24 128 ?x) with (Z.max (x - 24) (-149)) in Hsh.
    rewrite Z.max_l in Hsh by lia.
    destruct (Z.pos (digits2_pos p) - 24) as [|k|k] eqn:Hk.
    - injection Hsh as <- <-. cbn [Zdigits2]. lia.
    - injection Hsh as <- <-. cbn [Zdigits2]. lia.
    - injection Hsh as <- <-. cbn [Zdigits2]. rewrite digits2_pos_iter_xO. lia. }
  destruct (binary_round_aux_bounds false (Z.pos mz) ez loc_Exact) as [Hz|(m & e & -> & He & _)].
  - lia.
  - lia.
  - exfalso. revert Hz. apply binary_round_aux_nonzero; lia.
  - exists m, e. split; [done|lia].
Qed.

(** The counts the loop can reach: 24-digit mantissa, exponent -23..-16. *)
Lemma of_Z_packets_shape packets :
  1 <= packets <= 150 ->
  exists m e, of_Z packets = S754_finite false m e /\
              Z.pos (digits2_pos m) = 24 /\ e <= -16.
Proof.
  intros Hp.
  assert (forallb (fun n => match of_Z (Z.of_nat n) with
                            | S754_finite false m e =>
                                (Z.pos (digits2_pos m) =? 24) && (e <=? -16)
                            | _ => false
                            end) (seq 1 150) = true) as Hall by (vm_compute; reflexivity).
  rewrite forallb_forall in Hall.
  specialize (Hall (Z.to_nat packets)). rewrite Z2Nat.id in Hall by lia.
  destruct (of_Z packets) as [| | |[] m e]; try (discriminate Hall; apply in_seq; lia).
  exists m, e. split; [done|].
  assert (In (Z.to_nat packets) (seq 1 150)) as Hin by (apply in_seq; lia).
  apply Hall in Hin. apply andb_true_iff in Hin as [H1 H2].
  split; [by apply Z.eqb_eq|by apply Z.leb_le].
Qed.

(** The quotient of such a count by such a time is a zero or a finite
    number of small exponent and magnitude. *)
Lemma div_bounds m1 e1 m2 e2 :
  Z.pos (digits2_pos m1) = 24 -> e1 <= -16 -> -23 <= e2 ->
  (exists s, div (S754_finite false m1 e1) (S754_finite false m2 e2) = S754_zero s) \/
  exists s m e,
    div (S754_finite false m1 e1) (S754_finite false m2 e2) = S754_finite s m e /\
    e <= 9 /\ Zdigits2 (Z.pos m) + e <= 32.
Proof.
  intros Hd1 He1 He2. unfold div, SFdiv. change prec with 24. change emax with 128.
  destruct (SFdiv_core_binary 24 128 (Z.pos m1) e1 (Z.pos m2) e2) as [[q e'] l] eqn:Hcore.
  unfold SFdiv_core_binary in Hcore. cbn [Zdigits2] in Hcore.
  set (E := fexp 24 128 (Z.pos (digits2_pos m1) + e1 - (Z.pos (digits2_pos m2) + e2))) in *.
  set (e0 := Z.min E (e1 - e2)) in *.
  set (s := e1 - e2 - e0) in *.
  assert (0 <= s) as Hs by (unfold s, e0; lia).
  set (m' := match s with Z.pos _ => Z.shiftl (Z.pos m1) s | 0 => Z.pos m1 | Z.neg _ => 0 end) in *.
  assert (m' = Z.pos m1 * 2 ^ s) as Hm'.
  { unfold m'. destruct s as [|k|k] eqn:Hk; [lia| |lia]. by rewrite Z.shiftl_mul_pow2. }
  pose proof (Z_div_mod m' (Z.pos m2) eq_refl) as Hdm.
  destruct (Z.div_eucl m' (Z.pos m2)) as [q0 r0]. injection Hcore as <- <- <-.
  assert (0 < 2 ^ s) as H2s by (apply Z.pow_pos_nonneg; lia).
  assert (0 <= q0 <= m') as Hq by nia.
  assert (Zdigits2 q0 <= 24 + s) as Hdq.
  { apply Zdigits2_le; [lia|]. split; [lia|].
    pose proof (digits2_pos_bounds m1) as Hb. rewrite Hd1 in Hb.
    rewrite Z.pow_add_r by lia. nia. }
  destruct (binary_round_aux_bounds (xorb false false) q0 e0 (new_location (Z.pos m2) r0))
    as [Hz|(m & e & Hr & He & HE)].
  - lia.
  - unfold s, e0 in *. lia.
  - left. eexists. exact Hz.
  - right. exists (xorb false false), m, e. split; [exact Hr|].
    unfold s, e0 in *. lia.
Qed.

(** With time elapsed, the rate is not an infinity. *)
Lemma pps_of_elapsed_not_inf packets now startTime :
  1 <= packets <= 150 ->
  (now - startTime) mod 2 ^ 32 <> 0 ->
  isinf (pps_of packets now startTime) = false.
Proof.
  intros Hp Hel. unfold pps_of.
  pose proof (Z.mod_pos_bound (now - startTime) (2 ^ 32) eq_refl) as Hrange.
  destruct (of_Z_elapsed ((now - startTime) mod 2 ^ 32)) as (m2 & e2 & -> & He2); [lia|].
  destruct (of_Z_packets_shape packets Hp) as (m1 & e1 & -> & Hd1 & He1).
  change (of_Z 1000) with (S754_finite false 16384000 (-14)).
  destruct (div_bounds m1 e1 m2 e2 Hd1 He1 He2) as [[s ->]|(s & m & e & -> & He & HE)].
  - reflexivity.
  - unfold mul, SFmul. change prec with 24. change emax with 128.
    pose proof (Zdigits2_mul (Z.pos m) 16384000 ltac:(lia) ltac:(lia)) as Hmul.
    change (Zdigits2 16384000) with 24 in Hmul.
    pose proof (Zdigits2_nonneg (Z.pos m * 16384000)).
    destruct (binary_round_aux_bounds (xorb s false) (Z.pos (m * 16384000)) (e + -14) loc_Exact)
      as [->|(m' & e' & -> & _)]; try reflexivity.
    + lia.
    + rewrite Pos2Z.inj_mul. lia.
Qed.

(** X12.  A round of the loop reports a rate exactly when the transmission was
    accepted and the clock, read after it, has moved away from the reading
    at entry; the rate is then handed once to the serial port and once to
    the display, and it is the count of accepted transmissions, this one
    included, over the elapsed milliseconds, times 1000. *)
Theorem advertise_round_reports_iff_elapsed
    (e : env) (startTime : Z) (i : nat) (packets : Z) (w : world) :
  0 <= packets < 150 ->
  Z.of_nat (length (serialized e (n_pack w))) < 32640 ->
  let now := millis_at e (n_millis w) mod 2 ^ 32 in
  exists packets' w' new,
    advertise_body e startTime i (packets, w) = Some (packets', w') /\
    trace w' = trace w ++ new /\
    flat_map reported new =
      (if tx_ok e (n_tx w) && negb ((now - startTime) mod 2 ^ 32 =? 0)
       then [pps_of (packets + 1) now startTime; pps_of (packets + 1) now startTime]
       else []).
Proof.
  intros Hp HL now. destruct (send_small e w HL) as (r & _ & Hsend).
  unfold advertise_body. rewrite Hsend. cbn [mbind option_bind].
  destruct (tx_ok e (n_tx w)); cbn [andb].
  - unfold millis. cbn [n_millis frame trace n_pack n_tx]. fold now.
    destruct (Z.eqb_spec ((now - startTime) mod 2 ^ 32) 0) as [H0|Hne]; cbn [negb].
    + rewrite pps_of_zero_elapsed by (done || lia). cbn [isinf negb].
      eexists _, _, _. split; [reflexivity|]. cbn [trace].
      split; [reflexivity|]. reflexivity.
    + rewrite pps_of_elapsed_not_inf by (done || lia). cbn [negb].
      match goal with |- context [rate_report ?pps ?w0] =>
        destruct (reported_rate_report pps w0) as (new & Htr & Hrep) end.
      eexists _, _, _. split; [reflexivity|].
      split; [rewrite Htr; cbn [trace]; rewrite <- app_assoc; reflexivity|].
      rewrite flat_map_app, Hrep. reflexivity.
  - eexists _, _, _. split; [reflexivity|].
    unfold emit_event. cbn [trace]. rewrite <- app_assoc.
    split; reflexivity.
Qed.

Lemma advertise_round_reports_iff_elapsed_witness :
  0 <= 2 < 150 /\
  Z.of_nat (length (serialized (collaborators true braces (fun _ => 1500)) (n_pack boot)))
    < 32640 /\
  exists packets' w' new,
    advertise_body (collaborators true braces (fun _ => 1500)) 0 3 (2, boot)
      = Some (packets', w') /\
    trace w' = new /\
    flat_map reported new =
      [S754_finite false (2 ^ 23) (-22); S754_finite false (2 ^ 23) (-22)].
Proof.
  assert (0 <= 2 < 150) as Hp by lia.
  split; [exact Hp|]. split; [reflexivity|].
  exact (advertise_round_reports_iff_elapsed
           (collaborators true braces (fun _ => 1500)) 0 3 2 boot Hp eq_refl).
Defined.

End Rate.

(** ** The rate lines of [advertise] *)

Section RateReports.
Import Frame Float32 Radio Samples Observe.

Lemma count_if_le_length (l : list bool) : (count_if id l <= length l)%nat.
Proof. pose proof (count_if_negb l). lia. Qed.

Lemma verdicts_length (e : env) (from n : nat) : length (verdicts e from n) = n.
Proof. unfold verdicts. by rewrite length_fmap, length_seq. Qed.

(** Every event of one round of the loop. *)
Lemma advertise_body_events (e : env) (startTime : Z) (i : nat) (packets : Z) (w : world) :
  0 <= packets < 150 ->
  Z.of_nat (length (serialized e (n_pack w))) < 32640 ->
  let accepted := tx_ok e (n_tx w) in
  let elapsed := (millis_at e (n_millis w) mod 2 ^ 32 - startTime) mod 2 ^ 32 in
  let rate := mul (div (of_Z (packets + 1)) (of_Z elapsed)) (of_Z 1000) in
  exists w' buffer,
    advertise_body e startTime i (packets, w)
      = Some (if accepted then packets + 1 else packets, w') /\
    trace w' =
      trace w ++ [EvDelay 102; EvTx buffer (Z.of_nat (length buffer))] ++
      (if accepted
       then if elapsed =? 0 then [] else rate_lines rate
       else [EvSerialPrintln (Str "(X-X) Advertisment failed to send!")]) /\
    n_tx w' = S (n_tx w) /\
    n_millis w' = (n_millis w + (if accepted then 1 else 0))%nat /\
    (elapsed <> 0 -> is_finite rate = true) /\
    (elapsed = 0 -> rate = S754_infinity false).
Proof.
  intros Hp HL accepted elapsed rate.
  assert (elapsed = 0 -> rate = S754_infinity false) as Hzero.
  { intros H0.
    apply (pps_of_zero_elapsed (packets + 1) (millis_at e (n_millis w) mod 2 ^ 32) startTime);
      [lia|exact H0]. }
  assert (elapsed <> 0 -> isinf rate = false) as Hninf.
  { intros Hne.
    apply (pps_of_elapsed_not_inf (packets + 1) (millis_at e (n_millis w) mod 2 ^ 32) startTime);
      [lia|exact Hne]. }
  assert (elapsed <> 0 -> is_finite rate = true) as Hfin.
  { intros Hne.
    apply (pps_of_reported_finite (packets + 1) (millis_at e (n_millis w) mod 2 ^ 32) startTime);
      [lia|exact (Hninf Hne)]. }
  destruct (send_small e w HL) as (r & _ & Hsend).
  unfold advertise_body. rewrite Hsend. cbn [mbind option_bind].
  unfold accepted. destruct (tx_ok e (n_tx w)).
  - unfold millis. cbn [n_millis frame trace n_pack n_tx].
    change (pps_of (packets + 1) (millis_at e (n_millis w) mod 2 ^ 32) startTime) with rate.
    destruct (Z.eqb_spec elapsed 0) as [H0|Hne].
    + rewrite (Hzero H0). cbn [isinf negb].
      eexists _, _. split; [reflexivity|]. cbn [trace n_tx n_millis].
      split; [reflexivity|]. split; [reflexivity|]. split; [lia|]. by split.
    + rewrite (Hninf Hne). cbn [negb].
      unfold rate_report, rate_lines, emit_event. cbn [trace n_tx n_millis frame n_pack].
      eexists _, _. split; [reflexivity|]. cbn [trace n_tx n_millis].
      rewrite <- !app_assoc. split; [reflexivity|]. split; [reflexivity|].
      split; [lia|]. by split.
  - unfold emit_event. cbn [trace n_tx n_millis frame n_pack].
    eexists _, _. split; [reflexivity|]. cbn [trace n_tx n_millis].
    rewrite <- !app_assoc. split; [reflexivity|]. split; [reflexivity|].
    split; [lia|]. by split.
Qed.

(** C9.  The rate is the count of accepted transmissions, the current one
    included, divided by the milliseconds elapsed since [advertise] was
    entered and multiplied by 1000, all in binary32.  With documents
    below 32640 bytes every round completes and adds to the trace the
    pause, the transmission and then: after a refused transmission the
    failure line; after an accepted one with no millisecond elapsed
    nothing at all, the quotient being an infinity; after an accepted one
    with time elapsed the rate line, whose rate is finite.  So what a
    whole run hands to the serial port and the display is, round by
    round, what [round_console] says, and every rate in it is finite. *)
Theorem advertise_reports_finite_rates (e : env) (w : world) :
  (forall n, Z.of_nat (length (serialized e n)) < 32640) ->
  let startTime := millis_at e (n_millis w) mod 2 ^ 32 in
  (forall i packets w1,
     0 <= packets < 150 ->
     let accepted := tx_ok e (n_tx w1) in
     let elapsed := (millis_at e (n_millis w1) mod 2 ^ 32 - startTime) mod 2 ^ 32 in
     let rate := mul (div (of_Z (packets + 1)) (of_Z elapsed)) (of_Z 1000) in
     exists w2 buffer,
       advertise_body e startTime i (packets, w1)
         = Some (if accepted then packets + 1 else packets, w2) /\
       trace w2 =
         trace w1 ++ [EvDelay 102; EvTx buffer (Z.of_nat (length buffer))] ++
         (if accepted
          then if elapsed =? 0 then [] else rate_lines rate
          else [EvSerialPrintln (Str "(X-X) Advertisment failed to send!")]) /\
       (elapsed <> 0 -> is_finite rate = true) /\
       (elapsed = 0 -> rate = S754_infinity false)) /\
  exists w' new,
    advertise e w = Some w' /\
    trace w' = trace w ++ new /\
    flat_map console new =
      (if Config_advertise e
       then start_lines ++ flat_map (round_console e w) (seq 0 150) ++ finish_lines
       else []) /\
    Forall (fun f => is_finite f = true) (flat_map reported new).
Proof.
  intros HL startTime. split.
  { intros i packets w1 Hp accepted elapsed rate.
    destruct (advertise_body_events e startTime i packets w1 Hp (HL _))
      as (w2 & buffer & Hb & Htr & _ & _ & Hfin & Hzero).
    by exists w2, buffer. }
  unfold advertise, millis. fold startTime.
  destruct (Config_advertise e).
  2:{ exists {| frame := frame w; trace := trace w; n_pack := n_pack w;
               n_tx := n_tx w; n_millis := S (n_millis w) |}, [].
      cbn [trace flat_map]. rewrite app_nil_r.
      split; [done|]. split; [done|]. split; [done|apply Forall_nil_2]. }
  match goal with |- context [for_loop _ 0 150 (0, ?w0)] => set (w1 := w0) end.
  destruct (for_loop_invariant (advertise_body e startTime)
              (fun i (x : Z * world) =>
                 fst x = Z.of_nat (count_if id (verdicts e (n_tx w) i)) /\
                 n_tx (snd x) = (n_tx w + i)%nat /\
                 n_millis (snd x) = (S (n_millis w) + count_if id (verdicts e (n_tx w) i))%nat /\
                 exists new,
                   trace (snd x) = trace w1 ++ new /\
                   flat_map console new = flat_map (round_console e w) (seq 0 i) /\
                   Forall (fun f => is_finite f = true) (flat_map reported new))
              150 0%nat (0, w1))
    as ([packets' w2] & Hloop & _ & _ & _ & new & Htr & Hcon & Hfin).
  - intros i [packets wi] Hi (Hp & Hnt & Hnm & new & Htr & Hcon & Hfin). cbn [fst snd] in *.
    pose proof (count_if_le_length (verdicts e (n_tx w) i)) as Hle.
    rewrite verdicts_length in Hle.
    destruct (advertise_body_events e startTime i packets wi) as
      (wi1 & buffer & Hb & Htr1 & Hnt1 & Hnm1 & Hfin1 & _); [lia|apply HL|].
    eexists (_, wi1). split; [exact Hb|]. cbn [fst snd].
    rewrite verdicts_S, count_if_app, Hnt in *.
    assert (count_if id [tx_ok e (n_tx w + i)]
            = if tx_ok e (n_tx w + i) then 1%nat else 0%nat) as Hone
      by (by destruct (tx_ok e (n_tx w + i))).
    rewrite Hone.
    split; [destruct (tx_ok e (n_tx w + i)); lia|].
    split; [lia|].
    split; [rewrite Hnm1, Hnm; lia|].
    eexists (new ++ _). split; [rewrite Htr1, Htr, <- app_assoc; reflexivity|].
    rewrite !flat_map_app, seq_S, flat_map_app, Hcon.
    cbn [flat_map console reported app Nat.add]. rewrite app_nil_r.
    unfold round_console. rewrite verdicts_S, count_if_app, Hone.
    destruct (tx_ok e (n_tx w + i)).
    + fold startTime.
      replace (n_millis w + (count_if id (verdicts e (n_tx w) i) + 1))%nat
        with (n_millis wi) by lia.
      replace (Z.of_nat (count_if id (verdicts e (n_tx w) i) + 1)) with (packets + 1) by lia.
      cbv zeta.
      destruct (Z.eqb_spec ((millis_at e (n_millis wi) mod 2 ^ 32 - startTime) mod 2 ^ 32) 0)
        as [H0|Hne].
      * cbn [flat_map console reported app]. rewrite !app_nil_r. by split.
      * split; [f_equal; unfold rate_lines; reflexivity|].
        apply Forall_app_2; [exact Hfin|].
        unfold rate_lines. cbn [flat_map reported app].
        specialize (Hfin1 Hne).
        apply Forall_cons_2; [exact Hfin1|].
        apply Forall_cons_2; [exact Hfin1|]. apply Forall_nil_2.
    + cbn [flat_map console reported app]. rewrite !app_nil_r. by split.
  - cbn [fst snd]. subst w1. unfold delay, emit_event. cbn [n_tx n_millis trace].
    split; [reflexivity|]. split; [lia|]. split; [cbn; lia|].
    exists []. rewrite app_nil_r. split; [done|]. split; [done|apply Forall_nil_2].
  - rewrite Hloop. cbn [mbind option_bind snd] in *.
    eexists _, _. split; [reflexivity|].
    unfold emit_event. cbn [trace]. rewrite Htr.
    subst w1. unfold delay, emit_event. cbn [trace].
    rewrite <- !app_assoc. split; [reflexivity|].
    cbn [app flat_map console reported]. rewrite !flat_map_app.
    cbn [flat_map console reported app]. rewrite !app_nil_r, Hcon.
    split; [reflexivity|exact Hfin].
Qed.

Lemma advertise_reports_finite_rates_witness :
  (forall n, Z.of_nat (length (serialized ticking n)) < 32640) /\
  0 <= 0 < 150 /\
  (exists w2 buffer,
     advertise_body ticking 0 0 (0, boot) = Some (1, w2) /\
     trace w2 = [EvDelay 102; EvTx buffer (Z.of_nat (length buffer))]) /\
  (exists w2 buffer,
     advertise_body ticking 0 0
       (0, {| frame := init; trace := []; n_pack := 0; n_tx := 0; n_millis := 1 |})
       = Some (1, w2) /\
     trace w2 =
       [EvDelay 102; EvTx buffer (Z.of_nat (length buffer))] ++
       rate_lines (S754_finite false 8388608 (-23)) /\
     is_finite (S754_finite false 8388608 (-23)) = true) /\
  round_console ticking boot 0 = rate_lines (S754_finite false 8388608 (-23)) /\
  exists w' new,
    advertise ticking boot = Some w' /\
    trace w' = new /\
    flat_map console new =
      start_lines ++ flat_map (round_console ticking boot) (seq 0 150) ++ finish_lines /\
    Forall (fun f => is_finite f = true) (flat_map reported new).
Proof.
  assert (0 <= 0 < 150) as Hp by lia.
  split; [intros n; reflexivity|]. split; [exact Hp|].
  destruct (advertise_reports_finite_rates ticking boot (fun n => eq_refl))
    as (Hbody & w' & new & Ha & Htr & Hcon & Hfin).
  split.
  { destruct (Hbody 0%nat 0 boot Hp) as (w2 & buffer & Hb & Htr2 & _ & _).
    exists w2, buffer. split; [exact Hb|exact Htr2]. }
  split.
  { destruct (Hbody 0%nat 0
                {| frame := init; trace := []; n_pack := 0; n_tx := 0; n_millis := 1 |} Hp)
      as (w2 & buffer & Hb & Htr2 & Hf & _).
    exists w2, buffer. split; [exact Hb|]. split; [exact Htr2|].
    apply Hf. discriminate. }
  split; [reflexivity|].
  exists w', new. split; [exact Ha|]. split; [exact Htr|]. split; [exact Hcon|exact Hfin].
Defined.

End RateReports.
